(** * grams: weighted sampling search, incremental histograms, hash table

    A shallow embedding of [grams/grams.py] and [grams/hashtable.py].
    Python integers are [Z]; a float or integer compared against a cumulative
    value is a rational [Q] (Python compares numbers by exact value); a raised
    exception is an explicit [Raise]; the [while] loop of [Gram.bin_search]
    runs on fuel, [None] standing for "still looping". *)

From Stdlib Require Import ZArith QArith Lqa Lia.
From stdpp Require Import base list strings.

Local Open Scope Z_scope.

(** ** Python runtime notions shared by both modules *)

Inductive exn : Type :=
  | KeyError
  | IndexError
  | NameError
  | TypeError
  | ZeroDivisionError.

Inductive result (A : Type) : Type :=
  | Ok (a : A)
  | Raise (e : exn).

Arguments Ok {A} a.
Arguments Raise {A} e.

(** [len(l)] *)
Definition len {A} (l : list A) : Z := Z.of_nat (length l).

(** [l[i]]: a negative index counts from the end, anything outside raises
    [IndexError] (rendered as [None] here and turned into [Raise] by callers). *)
Definition getitem {A} (l : list A) (i : Z) : option A :=
  if i <? 0 then
    if len l + i <? 0 then None else l !! Z.to_nat (len l + i)
  else l !! Z.to_nat i.

(** ** grams.py *)

(** The namedtuples held by a distribution's cumulative table. *)
Record Bin : Type := mkBin { word : string; cumulative : Q }.

Definition Qlt_bool (x y : Q) : bool := negb (Qle_bool y x).

Module Gram.

Definition cumulative_at (array : list Bin) (i : Z) : result Q :=
  match getitem array i with
  | Some b => Ok (cumulative b)
  | None => Raise IndexError
  end.

(** The first [if] of the loop, with Python's short-circuit evaluation:
    [array[mid].cumulative <= prob and
     (mid == len(array) - 1 or array[mid + 1].cumulative > prob)]. *)
Definition matches (array : list Bin) (prob : Q) (mid : Z) (c : Q) : result bool :=
  if Qle_bool c prob then
    if mid =? len array - 1 then Ok true
    else match cumulative_at array (mid + 1) with
         | Ok c' => Ok (Qlt_bool prob c')
         | Raise e => Raise e
         end
  else Ok false.

Inductive iteration : Type :=
  | Return (r : result (option Z))
  | Continue (lo hi : Z).

(** One pass through the body of [while lo <= hi]. *)
Definition body (array : list Bin) (prob : Q) (lo hi : Z) : iteration :=
  let mid := (lo + hi) / 2 in
  match cumulative_at array mid with
  | Raise e => Return (Raise e)
  | Ok c =>
      match matches array prob mid c with
      | Raise e => Return (Raise e)
      | Ok true => Return (Ok (Some mid))
      | Ok false =>
          if Qlt_bool c prob then Continue (mid + 1) hi else Continue lo mid
      end
  end.

Fixpoint loop (fuel : nat) (array : list Bin) (prob : Q) (lo hi : Z)
  : option (result (option Z)) :=
  if lo <=? hi then
    match fuel with
    | O => None
    | S fuel' =>
        match body array prob lo hi with
        | Return r => Some r
        | Continue lo' hi' => loop fuel' array prob lo' hi'
        end
    end
  else Some (Ok None).

Definition bin_search (fuel : nat) (array : list Bin) (prob : Q)
  : option (result (option Z)) :=
  loop fuel array prob 0 (len array - 1).

End Gram.

(** Modelled from the spec: the cumulative table that [FreqDist] (stats.py,
    not part of the sources at hand) derives from the item -> count mapping:
    "running_total at index i = sum of counts for items at indices 0..=i",
    in the mapping's enumeration order. *)
Fixpoint cumulative_from (acc : Z) (counts : list (string * Z)) : list Bin :=
  match counts with
  | [] => []
  | (w, c) :: rest => mkBin w (inject_Z (acc + c)) :: cumulative_from (acc + c) rest
  end.

Definition cumulative_table (counts : list (string * Z)) : list Bin :=
  cumulative_from 0 counts.

(** Sum of all counts. *)
Definition total (counts : list (string * Z)) : Z :=
  foldr (fun wc s => wc.2 + s) 0 counts.

(** ** A state-and-exception monad for method bodies

    A method of an object with attributes [S] is a function from the
    attributes before the call to the attributes after it and either the
    returned value or the raised exception. *)

Definition M (S A : Type) : Type := S -> S * result A.

Definition ret {S A} (a : A) : M S A := fun s => (s, Ok a).
Definition raise {S A} (e : exn) : M S A := fun s => (s, Raise e).
Definition bind {S A B} (m : M S A) (k : A -> M S B) : M S B :=
  fun s => match m s with
           | (s', Ok a) => k a s'
           | (s', Raise e) => (s', Raise e)
           end.
Definition get_self {S} : M S S := fun s => (s, Ok s).
Definition put_self {S} (s : S) : M S unit := fun _ => (s, Ok tt).
Definition lift {S A} (r : result A) : M S A := fun s => (s, r).

Notation "'do' x <- c1 ; c2" := (bind c1 (fun x => c2))
  (at level 10, x name, c1 at level 100, c2 at level 200).
Notation "'run' c1 ; c2" := (bind c1 (fun _ => c2))
  (at level 10, c1 at level 100, c2 at level 200).

(** ** Python dictionaries, in insertion order *)

Definition dict : Type := list (string * Z).

(** [d.get(k)] as an option. *)
Fixpoint dict_lookup (d : dict) (k : string) : option Z :=
  match d with
  | [] => None
  | (k', v) :: rest => if String.eqb k' k then Some v else dict_lookup rest k
  end.

(** [d[k]] of a plain [dict]: [KeyError] for an absent key. *)
Definition dict_getitem (d : dict) (k : string) : result Z :=
  match dict_lookup d k with
  | Some v => Ok v
  | None => Raise KeyError
  end.

(** [d.get(k, default)] *)
Definition dict_get (d : dict) (k : string) (default : Z) : Z :=
  match dict_lookup d k with
  | Some v => v
  | None => default
  end.

(** [k in d] *)
Definition dict_contains (d : dict) (k : string) : bool :=
  match dict_lookup d k with
  | Some _ => true
  | None => false
  end.

(** [d[k] += c] on a [Counter] or a [defaultdict(int)]: an existing key keeps
    its place, a new key goes last. *)
Fixpoint dict_add (d : dict) (k : string) (c : Z) : dict :=
  match d with
  | [] => [(k, c)]
  | (k', v) :: rest =>
      if String.eqb k' k then (k', v + c) :: rest else (k', v) :: dict_add rest k c
  end.

(** [Counter(word_list)] *)
Definition Counter (word_list : list string) : dict :=
  foldl (fun d w => dict_add d w 1) [] word_list.

(** Modelled from the spec: [merge_data_containing_ints] (utils.py, not part
    of the sources at hand): "merges all buffered deltas into the underlying
    mapping (summing per item)". Its arguments are left as they are. *)
Definition merge_data_containing_ints (word_to_freq deltas : dict) : dict :=
  foldl (fun d wc => dict_add d wc.1 wc.2) word_to_freq deltas.

(** Modelled from the spec: [FreqDist] (stats.py, not part of the sources at
    hand) "owns a mapping item -> non-negative integer count, and a derived
    cumulative table". The sources reach the mapping through the [dict]
    protocol on [self] ([self[word]], [self.get(word, 0)],
    [super().__contains__(word)]) and through [self.word_to_freq]. *)
Record FreqDist : Type := mkFreqDist {
  word_to_freq : dict;
  bins : list Bin
}.

Definition FreqDist_init (data_frequency : dict) : FreqDist :=
  mkFreqDist data_frequency (cumulative_table data_frequency).

(** Modelled from the spec: [LogMethodCalls] (utils.py, not part of the
    sources at hand), the "call-history logger" with a "bounded-length log":
    every call of a method of the instance appends the method's name to
    [_logs_], which keeps the [logs_size] most recent entries. *)
Definition logs_size : nat := 4.

Definition log_call (name : string) (logs : list string) : list string :=
  let logs' := logs ++ [name] in
  drop (length logs' - logs_size)%nat logs'.

(** The attributes of an instance of [Listogram] or [Dictogram]: what
    [FreqDist.__init__] set up, the buffer of pending counts and the call
    log kept by the metaclass. The [sampler] attribute, a [Sample] built from
    the instance, takes no part in the methods below and is left out. *)
Record gram : Type := mkGram {
  dist : FreqDist;
  temp_word_to_freq : dict;
  _logs_ : list string
}.

(** The metaclass wrapper around a method body. *)
Definition logged {A} (name : string) (method : M gram A) : M gram A :=
  fun self => method (mkGram (dist self) (temp_word_to_freq self)
                             (log_call name (_logs_ self))).

(** [len(self._logs_) > 2 and self._logs_[-1 - 2].name == "add_count"] *)
Definition last_call_was_add_count (self : gram) : result bool :=
  if 2 <? len (_logs_ self) then
    match getitem (_logs_ self) (-1 - 2) with
    | Some name => Ok (String.eqb name "add_count")
    | None => Raise IndexError
    end
  else Ok false.

(** [super().__init__(merge_data_containing_ints(self.word_to_freq,
    self.temp_word_to_freq))]: the distribution is built anew, the other
    attributes are not assigned. *)
Definition reinitialize (self : gram) : gram :=
  mkGram (FreqDist_init (merge_data_containing_ints (word_to_freq (dist self))
                                                    (temp_word_to_freq self)))
         (temp_word_to_freq self) (_logs_ self).

(** What the module binds at top level: its imports and its classes. Only
    [binsearch] is given a body, a parameter standing for utils.py. *)
Inductive pyobject : Type :=
  | Callable (f : dict -> string -> Z)
  | Opaque.

Definition module_globals (binsearch : dict -> string -> Z)
  : list (string * pyobject) :=
  map (fun n => (n, Opaque))
      ["division"; "print_function"; "array"; "Counter"; "defaultdict";
       "deque"; "namedtuple"; "make_dataclass"; "Fraction"; "wraps";
       "devnull"; "random"; "choice"; "sys"; "Iterable"; "Optional"; "Tuple";
       "Union"; "Coverage"; "CoverageData"; "Var"; "FreqDist"; "Sample";
       "showgraph"]%string
  ++ [("binsearch"%string, Callable binsearch)]
  ++ map (fun n => (n, Opaque))
      ["invert_dict"; "LogMethodCalls"; "merge_data_containing_ints"; "p";
       "__all__"; "Gram"; "Histogram"; "Listogram"; "Dictogram"; "Fuzzygram";
       "Covergram"]%string.

Fixpoint lookup_name (env : list (string * pyobject)) (name : string)
  : result pyobject :=
  match env with
  | [] => Raise NameError
  | (n, o) :: rest => if String.eqb n name then Ok o else lookup_name rest name
  end.

Module Listogram.

Definition __init__ (word_list : option (list string)) : gram :=
  match word_list with
  | Some ws => mkGram (FreqDist_init (Counter ws)) [] []
  | None => mkGram (FreqDist_init []) [] []
  end.

Definition add_count (word : string) (count : Z) : M gram unit :=
  logged "add_count" (fun self =>
    (mkGram (dist self) (temp_word_to_freq self ++ [(word, count)]) (_logs_ self),
     Ok tt)).

(** A burst of [add_count] calls, one per [(word, count)] of [calls]. *)
Definition add_counts (calls : list (string * Z)) (self : gram) : gram :=
  foldl (fun s wc => (add_count wc.1 wc.2 s).1) self calls.

Definition rebuild_with_latent_wordcounts : M gram unit :=
  logged "rebuild_with_latent_wordcounts" (
    do self <- get_self;
    do stale <- lift (last_call_was_add_count self);
    if stale : bool then put_self (reinitialize self) else ret tt).

Definition frequency (word : string) : M gram Z :=
  logged "frequency" (
    run rebuild_with_latent_wordcounts;
    do self <- get_self;
    ret (dict_get (word_to_freq (dist self)) word 0)).

Definition __contains__ (word : string) : M gram bool :=
  logged "__contains__" (
    run rebuild_with_latent_wordcounts;
    do self <- get_self;
    ret (dict_contains (word_to_freq (dist self)) word)).

Section IndexOf.
Variable binsearch : dict -> string -> Z.

(** [bin_search] is looked up among the module's names when the call is
    reached. *)
Definition index_of (target : string) : M gram (option Z) :=
  logged "index_of" (
    run rebuild_with_latent_wordcounts;
    do f <- lift (lookup_name (module_globals binsearch) "bin_search");
    do self <- get_self;
    match f with
    | Callable search =>
        let idx := search (word_to_freq (dist self)) target in
        if -1 <? idx then ret (Some idx) else ret None
    | Opaque => raise TypeError
    end).

Definition _index (target : string) : M gram (option Z) :=
  logged "_index" (
    run rebuild_with_latent_wordcounts;
    index_of target).
End IndexOf.

End Listogram.

Module Dictogram.

Definition __init__ (word_list : option (list string)) : gram :=
  match word_list with
  | Some ws => mkGram (FreqDist_init (Counter ws)) [] []
  | None => mkGram (FreqDist_init []) [] []
  end.

(** [temp_word_to_freq] is a [defaultdict(int)] here. *)
Definition add_count (word : string) (count : Z) : M gram unit :=
  logged "add_count" (fun self =>
    (mkGram (dist self) (dict_add (temp_word_to_freq self) word count) (_logs_ self),
     Ok tt)).

(** A burst of [add_count] calls, one per [(word, count)] of [calls]. *)
Definition add_counts (calls : list (string * Z)) (self : gram) : gram :=
  foldl (fun s wc => (add_count wc.1 wc.2 s).1) self calls.

Definition rebuild_with_latent_wordcounts : M gram unit :=
  logged "rebuild_with_latent_wordcounts" (
    do self <- get_self;
    do stale <- lift (last_call_was_add_count self);
    if stale : bool then put_self (reinitialize self) else ret tt).

Definition items : M gram dict :=
  logged "items" (
    run rebuild_with_latent_wordcounts;
    do self <- get_self;
    ret (word_to_freq (dist self))).

Definition frequency (word : string) : M gram Z :=
  logged "frequency" (
    run rebuild_with_latent_wordcounts;
    do self <- get_self;
    ret (dict_get (word_to_freq (dist self)) word 0)).

End Dictogram.

Module Histogram.

Section AsWordToFreq.
(** [FreqDist.line_as_words], with each word already joined to a string. *)
Variable line_as_words : string -> list string.

Definition as_word_to_freq (source_text : option (list string)) : result dict :=
  match source_text with
  | None => Raise TypeError
  | Some lines =>
      Ok (foldl (fun d line =>
                   foldl (fun d' sword => dict_add d' sword 1) d (line_as_words line))
                [] lines)
  end.

(** [word_to_freq if word_to_freq else self.as_word_to_freq()]: an empty
    mapping is falsy. *)
Definition __init__ (source_text : option (list string))
    (word_to_freq : option dict) : result FreqDist :=
  match word_to_freq with
  | Some (wc :: rest) => Ok (FreqDist_init (wc :: rest))
  | _ => match as_word_to_freq source_text with
         | Ok d => Ok (FreqDist_init d)
         | Raise e => Raise e
         end
  end.
End AsWordToFreq.

(** [return self[word]]; the call log plays no part here. *)
Definition frequency (self : FreqDist) (word : string) : result Z :=
  dict_getitem (word_to_freq self) word.

End Histogram.

(** ** hashtable.py *)

(** Modelled from the spec: [LinkedList] (linkedlist.py, not part of the
    sources at hand) is the spec's Bucket, "a sequence of (key, value)
    entries supporting find/upsert/remove by key". [find] returns "the first
    entry" that matches "or none"; [replace] with a new item is upsert ("if an
    entry with key exists, replace its value in place; else append a new
    entry"), without one it is remove ("removes the first matching entry;
    fails with NotFound if no entry matches"). *)
Module LinkedList.
Section Bucket.
Context {A : Type}.

Definition find (quality : A -> bool) (ll : list A) : option A :=
  List.find quality ll.

Definition length (ll : list A) : Z := len ll.

Definition items (ll : list A) : list A := ll.

Fixpoint replace_first (quality : A -> bool) (new_item : A) (ll : list A)
  : option (list A) :=
  match ll with
  | [] => None
  | x :: rest =>
      if quality x then Some (new_item :: rest)
      else option_map (cons x) (replace_first quality new_item rest)
  end.

Fixpoint remove_first (quality : A -> bool) (ll : list A) : option (list A) :=
  match ll with
  | [] => None
  | x :: rest =>
      if quality x then Some rest
      else option_map (cons x) (remove_first quality rest)
  end.

Definition replace (quality : A -> bool) (new_item : option A) (ll : list A)
  : result (list A) :=
  match new_item with
  | Some item =>
      match replace_first quality item ll with
      | Some ll' => Ok ll'
      | None => Ok (ll ++ [item])
      end
  | None =>
      match remove_first quality ll with
      | Some ll' => Ok ll'
      | None => Raise KeyError
      end
  end.
End Bucket.
End LinkedList.

Module HashTable.
Section Table.
Context {K V : Type} `{EqDecision K}.
(** Python's built-in [hash]. *)
Variable hash : K -> Z.

Record t : Type := mk {
  buckets : list (list (K * V));
  table_size : Z;
  load_factor : Q
}.

Definition __init__ (init_size : Z) : t :=
  mk (replicate (Z.to_nat init_size) []) 0 (9 # 10).

(** [lambda item: item[0] == key] *)
Definition has_key (key : K) (item : K * V) : bool :=
  bool_decide (item.1 = key).

(** [hash(key) % len(self.buckets)] *)
Definition _bucket_index (key : K) : M t Z :=
  do self <- get_self;
  if len (buckets self) =? 0 then raise ZeroDivisionError
  else ret (hash key mod len (buckets self)).

(** [self.buckets[bucket_idx]] *)
Definition bucket_at (bucket_idx : Z) : M t (list (K * V)) :=
  do self <- get_self;
  match getitem (buckets self) bucket_idx with
  | Some ll => ret ll
  | None => raise IndexError
  end.

(** The bucket object at [bucket_idx] is changed in place. *)
Definition store_bucket (bucket_idx : Z) (ll : list (K * V)) : M t unit :=
  do self <- get_self;
  put_self (mk (<[Z.to_nat bucket_idx := ll]> (buckets self))
               (table_size self) (load_factor self)).

Definition add_table_size (d : Z) : M t unit :=
  do self <- get_self;
  put_self (mk (buckets self) (table_size self + d) (load_factor self)).

Definition length (self : t) : Z :=
  foldr Z.add 0 (map LinkedList.length (buckets self)).

(** The two nested [for] loops of [keys]. *)
Definition keys (self : t) : list K :=
  foldl (fun all_keys bucket =>
           foldl (fun all_keys' item => all_keys' ++ [item.1])
                 all_keys (LinkedList.items bucket))
        [] (buckets self).

(** [[value for ll in self.buckets for _, value in ll.items()]] *)
Definition values (self : t) : list V :=
  concat (map (fun ll => map snd (LinkedList.items ll)) (buckets self)).

(** [all_items.extend(bucket.items())] for each bucket. *)
Definition items (self : t) : list (K * V) :=
  foldl (fun all_items bucket => all_items ++ LinkedList.items bucket)
        [] (buckets self).

Definition get (key : K) : M t V :=
  do bucket_idx <- _bucket_index key;
  do ll <- bucket_at bucket_idx;
  match LinkedList.find (has_key key) ll with
  | None => raise KeyError
  | Some val => ret val.2
  end.

Definition contains (key : K) (self : t) : bool :=
  match get key self with
  | (_, Ok _) => true
  | (_, Raise _) => false
  end.

Definition set (key : K) (value : V) : M t unit :=
  do bucket_idx <- _bucket_index key;
  do ll <- bucket_at bucket_idx;
  run add_table_size (- LinkedList.length ll);
  do ll' <- lift (LinkedList.replace (has_key key) (Some (key, value)) ll);
  run store_bucket bucket_idx ll';
  do ll'' <- bucket_at bucket_idx;
  add_table_size (LinkedList.length ll'').

Definition delete (key : K) : M t unit :=
  do bucket_idx <- _bucket_index key;
  do ll <- bucket_at bucket_idx;
  do ll' <- lift (LinkedList.replace (has_key key) None ll);
  run store_bucket bucket_idx ll';
  add_table_size (-1).

(** A call of [set] or [delete]. *)
Inductive op : Type :=
  | Set_ (key : K) (value : V)
  | Delete (key : K).

Definition apply (o : op) : M t unit :=
  match o with
  | Set_ key value => set key value
  | Delete key => delete key
  end.

(** The table after a sequence of calls; a caller that catches the
    [KeyError] of a failed [delete] goes on with the table as it is. *)
Definition after (ops : list op) (self : t) : t :=
  foldl (fun s o => (apply o s).1) self ops.

(** What the calls say about [key]: the value of the last [set] of it
    unless a [delete] of it came later. *)
Definition latest (key : K) (ops : list op) : option V :=
  foldl (fun acc o =>
           match o with
           | Set_ k v => if decide (k = key) then Some v else acc
           | Delete k => if decide (k = key) then None else acc
           end) None ops.
End Table.
End HashTable.

(** ** Well-formedness of cumulative tables *)

(** Consecutive cumulative values never decrease. *)
Fixpoint nondecreasing (array : list Bin) : bool :=
  match array with
  | b1 :: (b2 :: _) as rest =>
      Qle_bool (cumulative b1) (cumulative b2) && nondecreasing rest
  | _ => true
  end.

(** No two consecutive entries both carry the cumulative value [prob]. *)
Fixpoint tie_free (prob : Q) (array : list Bin) : bool :=
  match array with
  | b1 :: (b2 :: _) as rest =>
      negb (Qeq_bool (cumulative b1) prob && Qeq_bool (cumulative b2) prob)
      && tie_free prob rest
  | _ => true
  end.

(** The cumulative value of the last entry. *)
Definition last_cumulative (array : list Bin) : option Q :=
  cumulative <$> last array.

(** [i] is where the search stops: [array[i].cumulative <= prob] and [i] is
    the last index or [array[i + 1].cumulative > prob]. *)
Definition stops_at (array : list Bin) (prob : Q) (i : nat) : Prop :=
  (exists b, array !! i = Some b /\ (cumulative b <= prob)%Q) /\
  (forall b', array !! S i = Some b' -> (prob < cumulative b')%Q).

(** The smallest index whose cumulative value exceeds [prob], if any. *)
Fixpoint first_above (prob : Q) (array : list Bin) : option Z :=
  match array with
  | [] => None
  | b :: rest =>
      if Qlt_bool prob (cumulative b) then Some 0
      else Z.succ <$> first_above prob rest
  end.

Definition abc_counts : list (string * Z) :=
  [("a"%string, 1); ("b"%string, 2); ("c"%string, 3)].

Definition abc : list Bin := cumulative_table abc_counts.

(** The sum of the counts that [calls] gives for [w]. *)
Definition delta_sum (w : string) (calls : list (string * Z)) : Z :=
  foldr (fun wc s => if String.eqb wc.1 w then wc.2 + s else s) 0 calls.

(** A stand-in for Python's [hash] on strings, for the examples. *)
Definition str_hash (s : string) : Z := Z.of_nat (String.length s).

(** [hi] is only ever lowered onto an entry that is not below [prob]. *)
Definition hi_bound (array : list Bin) (prob : Q) (hi : Z) : Prop :=
  hi = len array - 1 \/
  exists b, array !! Z.to_nat hi = Some b /\ (prob <= cumulative b)%Q.

(** ** Notions used in the statements about the hash table *)

Section TableNotions.
Context {K V : Type} `{EqDecision K}.
Variable hash : K -> Z.
Implicit Types (self : @HashTable.t K V) (key : K) (value : V).

(** The bucket after [replace(quality, (key, value))]. *)
Definition upsert key value (ll : list (K * V)) : list (K * V) :=
  match LinkedList.replace_first (HashTable.has_key key) (key, value) ll with
  | Some ll' => ll'
  | None => ll ++ [(key, value)]
  end.

(** The position of the bucket that [_bucket_index] names. *)
Definition slot self key : nat :=
  Z.to_nat (hash key mod len (HashTable.buckets self)).

(** The value that the bucket of [key] holds for it. *)
Definition value_of self key : option V :=
  match HashTable.buckets self !! slot self key with
  | Some ll => snd <$> LinkedList.find (HashTable.has_key key) ll
  | None => None
  end.

(** Every bucket holds a key at most once. *)
Definition distinct_keys self : Prop :=
  Forall (fun ll : list (K * V) => NoDup (map fst ll)) (HashTable.buckets self).
End TableNotions.

Definition roman : list (@HashTable.op string Z) :=
  [HashTable.Set_ "I"%string 1; HashTable.Set_ "V"%string 5;
   HashTable.Delete "I"%string; HashTable.Set_ "V"%string 7;
   HashTable.Set_ "X"%string 10].

(** How often [w] occurs in [ws]. *)
Definition occurrences (w : string) (ws : list string) : Z :=
  len (filter (fun x => x = w) ws).

(** Every entry sits in the bucket that [_bucket_index] names for its key. *)
Definition homed {K V : Type} (hash : K -> Z) (self : @HashTable.t K V) : Prop :=
  forall (i : nat) (ll : list (K * V)) (item : K * V),
    HashTable.buckets self !! i = Some ll -> item ∈ ll -> slot hash self item.1 = i.

(** * Properties *)

(** ** The search of [Gram.bin_search] *)

Example abc_table :
  abc = [mkBin "a" (inject_Z 1); mkBin "b" (inject_Z 3); mkBin "c" (inject_Z 6)].
Proof. reflexivity. Qed.

Example abc_draw_2_5 : Gram.bin_search 3 abc (5 # 2) = Some (Ok (Some 0)).
Proof. vm_compute. reflexivity. Qed.

Example abc_draw_3 : Gram.bin_search 3 abc (3 # 1) = Some (Ok (Some 1)).
Proof. vm_compute. reflexivity. Qed.

Example abc_draw_5_9 : Gram.bin_search 3 abc (59 # 10) = Some (Ok (Some 1)).
Proof. vm_compute. reflexivity. Qed.

Example abc_draw_0 : Gram.bin_search 50 abc 0 = None.
Proof. vm_compute. reflexivity. Qed.

(** Boolean comparisons on [Q] against their propositions. *)
Lemma Qlt_bool_iff (x y : Q) : Qlt_bool x y = true <-> (x < y)%Q.
Proof.
  unfold Qlt_bool. rewrite negb_true_iff. split.
  - intros H. apply Qnot_le_lt. intros Hle.
    apply Qle_bool_iff in Hle. congruence.
  - intros H. destruct (Qle_bool y x) eqn:E; [|reflexivity].
    apply Qle_bool_iff in E. exfalso. apply (Qlt_not_le _ _ H E).
Qed.

Lemma Qlt_bool_false (x y : Q) : Qlt_bool x y = false <-> (y <= x)%Q.
Proof.
  unfold Qlt_bool. rewrite negb_false_iff. apply Qle_bool_iff.
Qed.

Lemma Qle_bool_false (x y : Q) : Qle_bool x y = false <-> (y < x)%Q.
Proof.
  rewrite <- Qlt_bool_iff. unfold Qlt_bool.
  destruct (Qle_bool x y); simpl; split; congruence.
Qed.

Ltac qprop :=
  repeat match goal with
  | H : Qle_bool _ _ = true |- _ => apply Qle_bool_iff in H
  | H : Qle_bool _ _ = false |- _ => apply Qle_bool_false in H
  | H : Qlt_bool _ _ = true |- _ => apply Qlt_bool_iff in H
  | H : Qlt_bool _ _ = false |- _ => apply Qlt_bool_false in H
  | H : Qeq_bool _ _ = true |- _ => apply Qeq_bool_iff in H
  end.

Lemma getitem_nonneg {A} (l : list A) (i : Z) :
  0 <= i -> getitem l i = l !! Z.to_nat i.
Proof.
  intros Hi. unfold getitem.
  destruct (i <? 0) eqn:E; [apply Z.ltb_lt in E; lia | reflexivity].
Qed.

Lemma getitem_in_range {A} (l : list A) (i : Z) :
  0 <= i < len l -> exists x, getitem l i = Some x /\ l !! Z.to_nat i = Some x.
Proof.
  intros Hi. rewrite getitem_nonneg by lia.
  destruct (lookup_lt_is_Some_2 l (Z.to_nat i)) as [x Hx].
  - unfold len in Hi. lia.
  - exists x. split; assumption.
Qed.

Lemma cumulative_at_in_range (array : list Bin) (i : Z) :
  0 <= i < len array ->
  exists b, array !! Z.to_nat i = Some b /\
            Gram.cumulative_at array i = Ok (cumulative b).
Proof.
  intros Hi. destruct (getitem_in_range array i Hi) as (b & Hg & Hl).
  exists b. split; [assumption|]. unfold Gram.cumulative_at. rewrite Hg. reflexivity.
Qed.

Lemma midpoint_bounds (lo hi : Z) :
  lo <= hi -> lo <= (lo + hi) / 2 <= hi /\ (lo < hi -> (lo + hi) / 2 < hi).
Proof.
  intros H. split; [split|intros Hlt].
  - apply Z.div_le_lower_bound; lia.
  - apply Z.div_le_upper_bound; lia.
  - apply Z.div_lt_upper_bound; lia.
Qed.

(** *** Divergence below the first entry *)

Lemma loop_spins_below (array : list Bin) (prob : Q) :
  (forall b, b ∈ array -> (prob < cumulative b)%Q) ->
  forall fuel hi, 0 <= hi < len array ->
  Gram.loop fuel array prob 0 hi = None.
Proof.
  intros Hall fuel. induction fuel as [|fuel IH]; intros hi Hhi; simpl.
  - destruct (0 <=? hi) eqn:E; [reflexivity | apply Z.leb_gt in E; lia].
  - destruct (0 <=? hi) eqn:E; [| apply Z.leb_gt in E; lia].
    destruct (midpoint_bounds 0 hi) as [Hmid _]; [lia|].
    unfold Gram.body.
    destruct (cumulative_at_in_range array ((0 + hi) / 2)) as (b & Hb & Hc); [lia|].
    rewrite Hc. unfold Gram.matches.
    assert (Hlt : (prob < cumulative b)%Q).
    { apply Hall. eapply list_elem_of_lookup_2. exact Hb. }
    assert (E1 : Qle_bool (cumulative b) prob = false) by (apply Qle_bool_false; assumption).
    assert (E2 : Qlt_bool (cumulative b) prob = false).
    { apply Qlt_bool_false. apply Qlt_le_weak. assumption. }
    rewrite E1, E2. apply IH. lia.
Qed.

(** *** The search never falls out of its loop on a nonempty table *)

Lemma loop_never_none (array : list Bin) (prob : Q) :
  forall fuel lo hi,
  0 <= lo <= hi -> hi <= len array - 1 -> hi_bound array prob hi ->
  Gram.loop fuel array prob lo hi <> Some (Ok None).
Proof.
  induction fuel as [|fuel IH]; intros lo hi Hlo Hhi Hb; simpl.
  - destruct (lo <=? hi) eqn:E; [discriminate | apply Z.leb_gt in E; lia].
  - destruct (lo <=? hi) eqn:E; [| apply Z.leb_gt in E; lia].
    destruct (midpoint_bounds lo hi) as [Hmid Hstrict]; [lia|].
    set (mid := (lo + hi) / 2) in *.
    unfold Gram.body. fold mid.
    destruct (cumulative_at_in_range array mid) as (b & Hbm & Hc); [lia|].
    rewrite Hc. unfold Gram.matches.
    destruct (Qle_bool (cumulative b) prob) eqn:Ele.
    + destruct (mid =? len array - 1) eqn:Elast; [discriminate|].
      apply Z.eqb_neq in Elast.
      destruct (cumulative_at_in_range array (mid + 1)) as (b' & Hb' & Hc'); [lia|].
      rewrite Hc'.
      destruct (Qlt_bool prob (cumulative b')) eqn:Enext; [discriminate|].
      destruct (Qlt_bool (cumulative b) prob) eqn:Elt.
      * apply IH; [|lia|assumption].
        destruct (Z.eq_dec mid hi) as [Heq|Hne]; [|lia].
        exfalso. destruct Hb as [Hb|(b0 & Hb0 & Hge)]; [lia|].
        rewrite Heq in Hbm. rewrite Hbm in Hb0. inversion Hb0; subst b0.
        qprop. apply (Qlt_not_le _ _ Elt Hge).
      * apply IH; [lia|lia|]. right. exists b. split; [assumption|].
        qprop. assumption.
    + destruct (Qlt_bool (cumulative b) prob) eqn:Elt.
      * qprop. exfalso. apply (Qlt_irrefl prob).
        apply Qlt_trans with (cumulative b); assumption.
      * apply IH; [lia|lia|]. right. exists b. split; [assumption|].
        qprop. assumption.
Qed.

(** *** Where the search stops on a well-formed table *)

Lemma nondecreasing_adjacent (array : list Bin) :
  nondecreasing array = true ->
  forall i b b', array !! i = Some b -> array !! S i = Some b' ->
  (cumulative b <= cumulative b')%Q.
Proof.
  induction array as [|b1 [|b2 rest] IH]; intros Hs i b b' Hi Hi'.
  - discriminate.
  - destruct i; discriminate.
  - cbn [nondecreasing] in Hs. apply andb_true_iff in Hs as [H12 Hrest].
    destruct i as [|i].
    + cbn in Hi, Hi'. inversion Hi; inversion Hi'; subst.
      apply Qle_bool_iff. assumption.
    + apply (IH Hrest i); assumption.
Qed.

Lemma nondecreasing_lookup (array : list Bin) :
  nondecreasing array = true ->
  forall d i b b', array !! i = Some b -> array !! (i + d)%nat = Some b' ->
  (cumulative b <= cumulative b')%Q.
Proof.
  intros Hs. induction d as [|d IH]; intros i b b' Hi Hj.
  - rewrite Nat.add_0_r in Hj. rewrite Hi in Hj. inversion Hj. apply Qle_refl.
  - destruct (lookup_lt_is_Some_2 array (i + d)%nat) as [bm Hm].
    { apply lookup_lt_Some in Hj. lia. }
    apply Qle_trans with (cumulative bm).
    + apply (IH i); assumption.
    + apply (nondecreasing_adjacent array Hs (i + d)%nat); [assumption|].
      replace (S (i + d)) with (i + S d)%nat by lia. assumption.
Qed.

Lemma tie_free_adjacent (prob : Q) (array : list Bin) :
  tie_free prob array = true ->
  forall i b b', array !! i = Some b -> array !! S i = Some b' ->
  (cumulative b == prob)%Q -> (cumulative b' == prob)%Q -> False.
Proof.
  induction array as [|b1 [|b2 rest] IH]; intros Hs i b b' Hi Hi' E1 E2.
  - discriminate.
  - destruct i; discriminate.
  - cbn [tie_free] in Hs. apply andb_true_iff in Hs as [H12 Hrest].
    destruct i as [|i].
    + cbn in Hi, Hi'. inversion Hi; inversion Hi'; subst.
      apply negb_true_iff, andb_false_iff in H12.
      destruct H12 as [H|H];
        [apply Qeq_bool_iff in E1 | apply Qeq_bool_iff in E2]; congruence.
    + apply (IH Hrest i b b'); assumption.
Qed.

Lemma loop_finds (array : list Bin) (prob : Q) (t : nat) :
  nondecreasing array = true -> tie_free prob array = true ->
  stops_at array prob t ->
  forall fuel lo hi,
  0 <= lo <= Z.of_nat t -> Z.of_nat t <= hi <= len array - 1 ->
  (Z.to_nat (hi - lo) < fuel)%nat ->
  Gram.loop fuel array prob lo hi = Some (Ok (Some (Z.of_nat t))).
Proof.
  intros Hs Htie [(bt & Hbt & Hle) Hnext].
  induction fuel as [|fuel IH]; intros lo hi Hlo Hhi Hfuel; [lia|].
  simpl. destruct (lo <=? hi) eqn:E; [| apply Z.leb_gt in E; lia].
  destruct (midpoint_bounds lo hi) as [Hmid Hstrict]; [lia|].
  set (mid := (lo + hi) / 2) in *.
  unfold Gram.body. fold mid.
  destruct (cumulative_at_in_range array mid) as (b & Hb & Hc); [lia|].
  rewrite Hc. unfold Gram.matches.
  destruct (Z.lt_trichotomy mid (Z.of_nat t)) as [Hlt|[Heq|Hgt]].
  - (* left of the stop: both this entry and the next are at most [prob] *)
    assert (Hbp : (cumulative b <= prob)%Q).
    { apply Qle_trans with (cumulative bt); [|assumption].
      apply (nondecreasing_lookup array Hs (t - Z.to_nat mid) (Z.to_nat mid));
        [assumption|].
      replace (Z.to_nat mid + (t - Z.to_nat mid))%nat with t by lia. assumption. }
    destruct (cumulative_at_in_range array (mid + 1)) as (b' & Hb' & Hc'); [lia|].
    assert (Hb'p : (cumulative b' <= prob)%Q).
    { apply Qle_trans with (cumulative bt); [|assumption].
      apply (nondecreasing_lookup array Hs (t - Z.to_nat (mid + 1)) (Z.to_nat (mid + 1)));
        [assumption|].
      replace (Z.to_nat (mid + 1) + (t - Z.to_nat (mid + 1)))%nat with t by lia.
      assumption. }
    apply Qle_bool_iff in Hbp as Ele. rewrite Ele.
    destruct (mid =? len array - 1) eqn:Elast; [apply Z.eqb_eq in Elast; lia|].
    rewrite Hc'. apply Qlt_bool_false in Hb'p as Enext. rewrite Enext.
    destruct (Qlt_bool (cumulative b) prob) eqn:Elt.
    + apply IH; lia.
    + exfalso. qprop.
      replace (Z.to_nat (mid + 1)) with (S (Z.to_nat mid)) in Hb' by lia.
      apply (tie_free_adjacent prob array Htie (Z.to_nat mid) b b' Hb Hb').
      * apply Qle_antisym; assumption.
      * apply Qle_antisym; [assumption|].
        apply Qle_trans with (cumulative b); [assumption|].
        apply (nondecreasing_adjacent array Hs (Z.to_nat mid)); assumption.
  - (* on the stop *)
    rewrite Heq in Hb. rewrite Nat2Z.id in Hb. rewrite Hbt in Hb. inversion Hb; subst b.
    apply Qle_bool_iff in Hle as Ele. rewrite Ele.
    destruct (mid =? len array - 1) eqn:Elast; [rewrite Heq; reflexivity|].
    apply Z.eqb_neq in Elast.
    destruct (cumulative_at_in_range array (mid + 1)) as (b' & Hb' & Hc'); [lia|].
    rewrite Hc'.
    replace (Z.to_nat (mid + 1)) with (S t) in Hb' by lia.
    specialize (Hnext b' Hb'). apply Qlt_bool_iff in Hnext. rewrite Hnext.
    rewrite Heq. reflexivity.
  - (* right of the stop: this entry is above [prob] *)
    assert (Hpb : (prob < cumulative b)%Q).
    { destruct (lookup_lt_is_Some_2 array (S t)) as [b' Hb'].
      { apply lookup_lt_Some in Hb. lia. }
      apply Qlt_le_trans with (cumulative b'); [apply Hnext; assumption|].
      apply (nondecreasing_lookup array Hs (Z.to_nat mid - S t) (S t)); [assumption|].
      replace (S t + (Z.to_nat mid - S t))%nat with (Z.to_nat mid) by lia. assumption. }
    apply Qle_bool_false in Hpb as Ele. rewrite Ele.
    assert (Elt : Qlt_bool (cumulative b) prob = false).
    { apply Qlt_bool_false. apply Qlt_le_weak. assumption. }
    rewrite Elt. apply IH; lia.
Qed.

Lemma stop_exists (prob : Q) (array : list Bin) (b0 : Bin) :
  array !! 0%nat = Some b0 -> (cumulative b0 <= prob)%Q ->
  exists t, stops_at array prob t.
Proof.
  revert b0. induction array as [|b1 rest IH]; intros b0 H0 Hle; [discriminate|].
  cbn in H0. inversion H0; subst b1. clear H0.
  destruct rest as [|b2 rest'].
  - exists 0%nat. split; [exists b0; split; [reflexivity | assumption]|].
    intros b' Hb'. discriminate.
  - destruct (Qlt_le_dec prob (cumulative b2)) as [Hlt|Hge].
    + exists 0%nat. split; [exists b0; split; [reflexivity | assumption]|].
      intros b' Hb'. cbn in Hb'. inversion Hb'; subst. assumption.
    + destruct (IH b2 eq_refl Hge) as (t & (bt & Hbt & Hbtle) & Hnext).
      exists (S t). split; [exists bt; split; assumption|].
      intros b' Hb'. apply Hnext. exact Hb'.
Qed.

Lemma stop_is_last_at_most (prob : Q) (array : list Bin) (t : nat) :
  nondecreasing array = true -> stops_at array prob t ->
  forall j bj, array !! j = Some bj -> (cumulative bj <= prob)%Q -> (j <= t)%nat.
Proof.
  intros Hs [_ Hnext] j bj Hj Hle.
  destruct (le_lt_dec j t) as [|Hlt]; [assumption|exfalso].
  destruct (lookup_lt_is_Some_2 array (S t)) as [b' Hb'].
  { apply lookup_lt_Some in Hj. lia. }
  apply (Qlt_not_le _ _ (Hnext b' Hb')).
  apply Qle_trans with (cumulative bj); [|assumption].
  apply (nondecreasing_lookup array Hs (j - S t) (S t)); [assumption|].
  replace (S t + (j - S t))%nat with j by lia. assumption.
Qed.

(** The index the search returns is one below the smallest index whose
    cumulative value exceeds [prob]. *)
Lemma stop_before_first_above (prob : Q) (array : list Bin) (t : nat) :
  nondecreasing array = true -> stops_at array prob t ->
  first_above prob array =
    if decide (S t < length array)%nat then Some (Z.of_nat t + 1) else None.
Proof.
  revert t. induction array as [|b1 rest IH]; intros t Hs [(bt & Hbt & Hle) Hnext].
  - discriminate.
  - assert (H1 : (cumulative b1 <= prob)%Q).
    { apply Qle_trans with (cumulative bt); [|assumption].
      apply (nondecreasing_lookup (b1 :: rest) Hs t 0%nat); [reflexivity | assumption]. }
    cbn [first_above]. apply Qlt_bool_false in H1 as E1. rewrite E1.
    destruct t as [|t].
    + destruct rest as [|b2 rest'].
      * cbn. destruct (decide _) as [Hd|Hd]; [cbn in Hd; lia | reflexivity].
      * specialize (Hnext b2 eq_refl). cbn [first_above].
        apply Qlt_bool_iff in Hnext. rewrite Hnext. cbn.
        destruct (decide _) as [Hd|Hd]; [reflexivity | cbn in Hd; lia].
    + assert (Hs' : nondecreasing rest = true).
      { destruct rest; [reflexivity|]. cbn [nondecreasing] in Hs.
        apply andb_true_iff in Hs as [_ Hs]. exact Hs. }
      rewrite (IH t Hs').
      * cbn [length]. destruct (decide (S t < length rest)%nat) as [Hd|Hd];
          destruct (decide (S (S t) < S (length rest))%nat) as [Hd'|Hd']; try lia.
        -- cbn. f_equal. lia.
        -- reflexivity.
      * split; [exists bt; split; assumption|]. intros b' Hb'. apply Hnext. exact Hb'.
Qed.

(** C1 (as amended). On a nonempty table whose cumulative values never
    decrease, for a draw that is not below the first cumulative value and is
    not the cumulative value of two consecutive entries, [bin_search] returns
    (with any fuel from the length of the table on) the index [i] with
    [cumulative[i] <= draw] and either [i] last or [cumulative[i+1] > draw]:
    the largest index whose cumulative value is at most the draw, one below
    the smallest index whose cumulative value exceeds it. For the counts
    a:1, b:2, c:3 the table is (a,1), (b,3), (c,6); draw 2.5 gives index 0
    (a), draws 3.0 and 5.9 give index 1 (b). *)
Theorem bin_search_returns_last_at_most :
  (forall (array : list Bin) (prob : Q) (b0 : Bin),
     array !! 0%nat = Some b0 ->
     nondecreasing array = true ->
     tie_free prob array = true ->
     (cumulative b0 <= prob)%Q ->
     exists i : nat,
       (forall fuel, (length array <= fuel)%nat ->
          Gram.bin_search fuel array prob = Some (Ok (Some (Z.of_nat i)))) /\
       stops_at array prob i /\
       (forall j bj, array !! j = Some bj -> (cumulative bj <= prob)%Q -> (j <= i)%nat) /\
       first_above prob array =
         if decide (S i < length array)%nat then Some (Z.of_nat i + 1) else None) /\
  cumulative_table abc_counts =
    [mkBin "a" (inject_Z 1); mkBin "b" (inject_Z 3); mkBin "c" (inject_Z 6)] /\
  (forall fuel, (3 <= fuel)%nat ->
     Gram.bin_search fuel abc (5 # 2) = Some (Ok (Some 0)) /\
     Gram.bin_search fuel abc (3 # 1) = Some (Ok (Some 1)) /\
     Gram.bin_search fuel abc (59 # 10) = Some (Ok (Some 1))) /\
  word <$> getitem abc 0 = Some "a"%string /\
  word <$> getitem abc 1 = Some "b"%string.
Proof.
  split; [|split; [reflexivity|split; [|split; reflexivity]]].
  - intros array prob b0 H0 Hs Htie Hle.
    destruct (stop_exists prob array b0 H0 Hle) as [t Ht].
    exists t. split; [|split; [exact Ht|split]].
    + intros fuel Hfuel. unfold Gram.bin_search.
      assert (Hlt : (t < length array)%nat).
      { destruct Ht as [(bt & Hbt & _) _]. eapply lookup_lt_Some. exact Hbt. }
      apply loop_finds; try assumption; unfold len; lia.
    + apply stop_is_last_at_most; assumption.
    + apply stop_before_first_above; assumption.
  - intros fuel Hfuel.
    destruct fuel as [|[|[|fuel]]]; [lia|lia|lia|].
    repeat split; vm_compute; reflexivity.
Qed.

Lemma bin_search_returns_last_at_most_witness :
  (exists i : nat,
     (forall fuel, (length abc <= fuel)%nat ->
        Gram.bin_search fuel abc (5 # 2) = Some (Ok (Some (Z.of_nat i)))) /\
     stops_at abc (5 # 2) i /\
     (forall j bj, abc !! j = Some bj -> (cumulative bj <= 5 # 2)%Q -> (j <= i)%nat) /\
     first_above (5 # 2) abc =
       if decide (S i < length abc)%nat then Some (Z.of_nat i + 1) else None) /\
  (Gram.bin_search 3 abc (5 # 2) = Some (Ok (Some 0)) /\
   Gram.bin_search 3 abc (3 # 1) = Some (Ok (Some 1)) /\
   Gram.bin_search 3 abc (59 # 10) = Some (Ok (Some 1))).
Proof.
  split.
  - apply (proj1 bin_search_returns_last_at_most abc (5 # 2) (mkBin "a" (inject_Z 1))).
    + reflexivity.
    + reflexivity.
    + reflexivity.
    + unfold Qle. simpl. lia.
  - apply (proj1 (proj2 (proj2 bin_search_returns_last_at_most)) 3%nat). lia.
Defined.

(** C1 as stated fails: with the table (a,1), (b,3), (c,6), which is
    nondecreasing, and the draw 2.5, which lies in [0, 6), the smallest index
    whose cumulative value exceeds the draw is 1 (b), and [bin_search] never
    returns it: it returns index 0 (a). *)
Lemma bin_search_not_first_above :
  nondecreasing abc = true /\
  (0 <= 5 # 2 < inject_Z (total abc_counts))%Q /\
  first_above (5 # 2) abc = Some 1 /\
  (forall fuel, Gram.bin_search fuel abc (5 # 2) <> Some (Ok (first_above (5 # 2) abc))) /\
  Gram.bin_search 3 abc (5 # 2) = Some (Ok (Some 0)).
Proof.
  split; [reflexivity|]. split; [split; [unfold Qle | unfold Qlt]; simpl; lia|].
  split; [reflexivity|]. split; [|reflexivity].
  intros fuel. destruct fuel as [|[|fuel]]; vm_compute; discriminate.
Qed.

(** C2. On a nonempty table whose cumulative values never decrease and end
    in the total, no draw in [0, total) makes [bin_search] return [None],
    whatever the number of iterations it is given. *)
Theorem bin_search_never_not_found
    (array : list Bin) (prob tot : Q) (fuel : nat) :
  array <> [] ->
  nondecreasing array = true ->
  last_cumulative array = Some tot ->
  (0 <= prob < tot)%Q ->
  Gram.bin_search fuel array prob <> Some (Ok None).
Proof.
  intros Hne _ _ _. unfold Gram.bin_search.
  assert (0 < len array).
  { unfold len. destruct array; [congruence | simpl; lia]. }
  apply loop_never_none; [lia | lia | left; reflexivity].
Qed.

Lemma bin_search_never_not_found_witness :
  Gram.bin_search 3 abc (5 # 2) <> Some (Ok None).
Proof.
  apply (bin_search_never_not_found abc (5 # 2) (inject_Z 6) 3).
  - discriminate.
  - reflexivity.
  - reflexivity.
  - split; [unfold Qle | unfold Qlt]; simpl; lia.
Defined.

(** C10 fails on the code: with the table (a,1), (b,3), (c,6) and the probe
    0, below the first cumulative value, the loop of [bin_search] is never
    left, however many iterations it is given. *)
Theorem bin_search_spins_on_abc_0 :
  forall fuel, Gram.bin_search fuel abc 0 = None.
Proof.
  intros fuel. unfold Gram.bin_search. apply loop_spins_below.
  - intros b Hb. unfold abc in Hb. cbn in Hb.
    repeat (apply elem_of_cons in Hb as [->|Hb]); try (unfold Qlt; simpl; lia).
    inversion Hb.
  - vm_compute. split; [discriminate | reflexivity].
Qed.

(** ** The call log and the rebuild of [Listogram] and [Dictogram] *)

Lemma log_call_suffix (name : string) (front back : list string) :
  (length back < logs_size)%nat ->
  exists front', log_call name (front ++ back) = front' ++ back ++ [name].
Proof.
  intros Hback. unfold log_call.
  exists (drop (length ((front ++ back) ++ [name]) - logs_size) front).
  rewrite <- (assoc_L (++) front back [name]).
  rewrite drop_app_le; [reflexivity|].
  rewrite !length_app. simpl. unfold logs_size in *. lia.
Qed.

(** After three logged calls the log ends in their three names. *)
Lemma log_call_three (a b c : string) (logs : list string) :
  exists front, log_call c (log_call b (log_call a logs)) = front ++ [a; b; c].
Proof.
  destruct (log_call_suffix a logs []) as [f1 E1]; [unfold logs_size; simpl; lia|].
  rewrite app_nil_r in E1. rewrite E1. simpl.
  destruct (log_call_suffix b f1 [a]) as [f2 E2]; [unfold logs_size; simpl; lia|].
  rewrite E2. simpl.
  destruct (log_call_suffix c f2 [a; b]) as [f3 E3]; [unfold logs_size; simpl; lia|].
  rewrite E3. simpl. exists f3. reflexivity.
Qed.

Lemma last_call_after_three (a b c : string) (d : FreqDist) (temp : dict)
    (logs : list string) :
  last_call_was_add_count
    (mkGram d temp (log_call c (log_call b (log_call a logs))))
  = Ok (String.eqb a "add_count").
Proof.
  destruct (log_call_three a b c logs) as [front E].
  unfold last_call_was_add_count. cbn [_logs_]. rewrite E.
  assert (Hlen : len (front ++ [a; b; c]) = len front + 3).
  { unfold len. rewrite length_app. simpl. lia. }
  rewrite Hlen.
  assert (E2 : (2 <? len front + 3) = true) by (apply Z.ltb_lt; unfold len; lia).
  rewrite E2. unfold getitem. rewrite Hlen.
  replace (-1 - 2 <? 0) with true by reflexivity.
  assert (E3 : (len front + 3 + (-1 - 2) <? 0) = false) by (apply Z.ltb_ge; unfold len; lia).
  rewrite E3.
  replace (Z.to_nat (len front + 3 + (-1 - 2))) with (length front + 0)%nat
    by (unfold len; lia).
  rewrite lookup_app_r by lia.
  replace (length front + 0 - length front)%nat with 0%nat by lia.
  reflexivity.
Qed.

(** The test of the rebuild never raises. *)
Lemma last_call_was_add_count_ok (self : gram) :
  exists b, last_call_was_add_count self = Ok b.
Proof.
  unfold last_call_was_add_count.
  destruct (2 <? len (_logs_ self)) eqn:E; [|exists false; reflexivity].
  apply Z.ltb_lt in E. unfold getitem.
  replace (-1 - 2 <? 0) with true by reflexivity.
  assert (E3 : (len (_logs_ self) + (-1 - 2) <? 0) = false) by (apply Z.ltb_ge; lia).
  rewrite E3.
  destruct (lookup_lt_is_Some_2 (_logs_ self) (Z.to_nat (len (_logs_ self) + (-1 - 2))))
    as [name Hname]; [unfold len in *; lia|].
  rewrite Hname. eexists. reflexivity.
Qed.

Ltac method :=
  unfold logged, bind, get_self, put_self, lift, ret, raise;
  cbn [dist temp_word_to_freq _logs_ fst snd].

Section Reads.
Variables (d : FreqDist) (temp : dict) (logs : list string).

(** The distribution rebuilt from the buffer. *)
Let merged : dict := merge_data_containing_ints (word_to_freq d) temp.
Let fresh (name : string) : list string :=
  log_call "rebuild_with_latent_wordcounts" (log_call name (log_call "add_count" logs)).
Let self : gram := mkGram d temp (log_call "add_count" logs).

Lemma Listogram_frequency_after_add_count (w : string) :
  Listogram.frequency w self
  = (mkGram (FreqDist_init merged) temp (fresh "frequency"), Ok (dict_get merged w 0)).
Proof.
  unfold Listogram.frequency, Listogram.rebuild_with_latent_wordcounts, self. method.
  rewrite last_call_after_three. reflexivity.
Qed.

Lemma Listogram_contains_after_add_count (w : string) :
  Listogram.__contains__ w self
  = (mkGram (FreqDist_init merged) temp (fresh "__contains__"),
     Ok (dict_contains merged w)).
Proof.
  unfold Listogram.__contains__, Listogram.rebuild_with_latent_wordcounts, self. method.
  rewrite last_call_after_three. reflexivity.
Qed.

Lemma Listogram_index_of_after_add_count (binsearch : dict -> string -> Z) (w : string) :
  (Listogram.index_of binsearch w self).1
  = mkGram (FreqDist_init merged) temp (fresh "index_of").
Proof.
  unfold Listogram.index_of, Listogram.rebuild_with_latent_wordcounts, self. method.
  rewrite last_call_after_three. reflexivity.
Qed.

Lemma Dictogram_frequency_after_add_count (w : string) :
  Dictogram.frequency w self
  = (mkGram (FreqDist_init merged) temp (fresh "frequency"), Ok (dict_get merged w 0)).
Proof.
  unfold Dictogram.frequency, Dictogram.rebuild_with_latent_wordcounts, self. method.
  rewrite last_call_after_three. reflexivity.
Qed.

Lemma Dictogram_items_after_add_count :
  Dictogram.items self
  = (mkGram (FreqDist_init merged) temp (fresh "items"), Ok merged).
Proof.
  unfold Dictogram.items, Dictogram.rebuild_with_latent_wordcounts, self. method.
  rewrite last_call_after_three. reflexivity.
Qed.
End Reads.

(** *** Merging sums per item *)

Lemma dict_lookup_add (d0 : dict) (k w : string) (c : Z) :
  dict_get (dict_add d0 k c) w 0
  = dict_get d0 w 0 + (if String.eqb k w then c else 0).
Proof.
  unfold dict_get. induction d0 as [|[k' v] rest IH]; simpl.
  - destruct (String.eqb k w); lia.
  - destruct (String.eqb k' k) eqn:Ek; simpl.
    + apply String.eqb_eq in Ek. subst k'.
      destruct (String.eqb k w); lia.
    + destruct (String.eqb k' w) eqn:Ew; [|exact IH].
      apply String.eqb_eq in Ew. subst k'.
      rewrite String.eqb_sym in Ek. rewrite Ek. lia.
Qed.

Lemma merge_sums_per_item (base calls : dict) (w : string) :
  dict_get (merge_data_containing_ints base calls) w 0
  = dict_get base w 0 + delta_sum w calls.
Proof.
  unfold merge_data_containing_ints. revert base.
  induction calls as [|[k c] rest IH]; intros base; simpl.
  - lia.
  - rewrite IH, dict_lookup_add. destruct (String.eqb k w); lia.
Qed.

Lemma delta_sum_add (buffer : dict) (k w : string) (c : Z) :
  delta_sum w (dict_add buffer k c)
  = delta_sum w buffer + (if String.eqb k w then c else 0).
Proof.
  induction buffer as [|[k' v] rest IH]; simpl.
  - destruct (String.eqb k w); lia.
  - destruct (String.eqb k' k) eqn:Ek; simpl.
    + apply String.eqb_eq in Ek. subst k'. destruct (String.eqb k w); lia.
    + rewrite IH. destruct (String.eqb k' w); lia.
Qed.

Lemma delta_sum_app (calls1 calls2 : dict) (w : string) :
  delta_sum w (calls1 ++ calls2) = delta_sum w calls1 + delta_sum w calls2.
Proof.
  induction calls1 as [|[k c] rest IH]; simpl; [lia|].
  rewrite IH. destruct (String.eqb k w); lia.
Qed.

Lemma delta_sum_merge (buffer calls : dict) (w : string) :
  delta_sum w (merge_data_containing_ints buffer calls)
  = delta_sum w buffer + delta_sum w calls.
Proof.
  unfold merge_data_containing_ints. revert buffer.
  induction calls as [|[k c] rest IH]; intros buffer; simpl.
  - lia.
  - rewrite IH, delta_sum_add. destruct (String.eqb k w); lia.
Qed.

(** *** A burst of [add_count] calls *)

Lemma Listogram_add_counts_snoc (calls : list (string * Z)) (w : string) (c : Z)
    (self : gram) :
  Listogram.add_counts (calls ++ [(w, c)]) self
  = (Listogram.add_count w c (Listogram.add_counts calls self)).1.
Proof. unfold Listogram.add_counts. rewrite foldl_app. reflexivity. Qed.

Lemma Listogram_add_counts_state (calls : list (string * Z)) (self : gram) :
  calls <> [] ->
  exists logs,
    Listogram.add_counts calls self
    = mkGram (dist self) (temp_word_to_freq self ++ calls) (log_call "add_count" logs).
Proof.
  induction calls as [|[w c] calls IH] using rev_ind; intros Hne; [congruence|].
  rewrite Listogram_add_counts_snoc.
  destruct calls as [|wc calls'].
  - exists (_logs_ self). destruct self. reflexivity.
  - destruct IH as [logs E]; [discriminate|]. rewrite E.
    exists (log_call "add_count" logs).
    unfold Listogram.add_count. method. rewrite <- (assoc_L (++)). reflexivity.
Qed.

Lemma Dictogram_add_counts_snoc (calls : list (string * Z)) (w : string) (c : Z)
    (self : gram) :
  Dictogram.add_counts (calls ++ [(w, c)]) self
  = (Dictogram.add_count w c (Dictogram.add_counts calls self)).1.
Proof. unfold Dictogram.add_counts. rewrite foldl_app. reflexivity. Qed.

Lemma Dictogram_add_counts_state (calls : list (string * Z)) (self : gram) :
  calls <> [] ->
  exists logs,
    Dictogram.add_counts calls self
    = mkGram (dist self)
             (merge_data_containing_ints (temp_word_to_freq self) calls)
             (log_call "add_count" logs).
Proof.
  induction calls as [|[w c] calls IH] using rev_ind; intros Hne; [congruence|].
  rewrite Dictogram_add_counts_snoc.
  destruct calls as [|wc calls'].
  - exists (_logs_ self). destruct self. reflexivity.
  - destruct IH as [logs E]; [discriminate|]. rewrite E.
    exists (log_call "add_count" logs).
    unfold Dictogram.add_count. method.
    unfold merge_data_containing_ints. rewrite foldl_app. reflexivity.
Qed.

(** What a read right after a burst does, from whatever state: after any
    nonempty burst of [add_count] calls on a [Listogram] or a [Dictogram],
    [frequency], [__contains__], [index_of] and [items] first rebuild the
    distribution from the mapping merged with everything the buffer holds,
    each item's counts being summed, and [frequency], [__contains__] and
    [items] answer from that mapping. On an object built from two
    occurrences of x, two [add_count] calls for x that total 3 lead to the
    cumulative table of the object built from five occurrences of x. *)
Theorem read_after_add_counts_merges :
  (forall (self : gram) (calls : list (string * Z)) (w : string),
     calls <> [] ->
     let buffer := temp_word_to_freq self ++ calls in
     let merged := merge_data_containing_ints (word_to_freq (dist self)) buffer in
     let burst := Listogram.add_counts calls self in
     dist (Listogram.frequency w burst).1 = FreqDist_init merged /\
     (Listogram.frequency w burst).2 = Ok (dict_get merged w 0) /\
     dist (Listogram.__contains__ w burst).1 = FreqDist_init merged /\
     (Listogram.__contains__ w burst).2 = Ok (dict_contains merged w) /\
     (forall binsearch,
        dist (Listogram.index_of binsearch w burst).1 = FreqDist_init merged) /\
     dict_get merged w 0
     = dict_get (word_to_freq (dist self)) w 0
       + delta_sum w (temp_word_to_freq self) + delta_sum w calls) /\
  (forall (self : gram) (calls : list (string * Z)) (w : string),
     calls <> [] ->
     let buffer := merge_data_containing_ints (temp_word_to_freq self) calls in
     let merged := merge_data_containing_ints (word_to_freq (dist self)) buffer in
     let burst := Dictogram.add_counts calls self in
     dist (Dictogram.frequency w burst).1 = FreqDist_init merged /\
     (Dictogram.frequency w burst).2 = Ok (dict_get merged w 0) /\
     dist (Dictogram.items burst).1 = FreqDist_init merged /\
     (Dictogram.items burst).2 = Ok merged /\
     dict_get merged w 0
     = dict_get (word_to_freq (dist self)) w 0
       + delta_sum w (temp_word_to_freq self) + delta_sum w calls) /\
  (forall (c1 c2 : Z) (binsearch : dict -> string -> Z),
     c1 + c2 = 3 ->
     let x := "x"%string in
     let five := bins (dist (Listogram.__init__ (Some [x; x; x; x; x]))) in
     let l := Listogram.add_counts [(x, c1); (x, c2)] (Listogram.__init__ (Some [x; x])) in
     let d := Dictogram.add_counts [(x, c1); (x, c2)] (Dictogram.__init__ (Some [x; x])) in
     five = [mkBin x (inject_Z 5)] /\
     bins (dist (Dictogram.__init__ (Some [x; x; x; x; x]))) = five /\
     bins (dist (Listogram.frequency x l).1) = five /\
     bins (dist (Listogram.__contains__ x l).1) = five /\
     bins (dist (Listogram.index_of binsearch x l).1) = five /\
     bins (dist (Dictogram.frequency x d).1) = five /\
     bins (dist (Dictogram.items d).1) = five).
Proof.
  split; [|split].
  - intros self calls w Hne buffer merged burst.
    destruct (Listogram_add_counts_state calls self Hne) as [logs E].
    subst burst. rewrite E.
    rewrite Listogram_frequency_after_add_count, Listogram_contains_after_add_count.
    repeat split.
    + intros binsearch. rewrite Listogram_index_of_after_add_count. reflexivity.
    + subst merged buffer. rewrite merge_sums_per_item, delta_sum_app. lia.
  - intros self calls w Hne buffer merged burst.
    destruct (Dictogram_add_counts_state calls self Hne) as [logs E].
    subst burst. rewrite E.
    rewrite Dictogram_frequency_after_add_count, Dictogram_items_after_add_count.
    repeat split.
    subst merged buffer. rewrite merge_sums_per_item, delta_sum_merge. lia.
  - intros c1 c2 binsearch Hsum x five l d.
    destruct (Listogram_add_counts_state [(x, c1); (x, c2)]
                (Listogram.__init__ (Some [x; x]))) as [logsl El]; [discriminate|].
    destruct (Dictogram_add_counts_state [(x, c1); (x, c2)]
                (Dictogram.__init__ (Some [x; x]))) as [logsd Ed]; [discriminate|].
    subst l d. rewrite El, Ed.
    rewrite Listogram_frequency_after_add_count, Listogram_contains_after_add_count,
      Listogram_index_of_after_add_count, Dictogram_frequency_after_add_count,
      Dictogram_items_after_add_count.
    subst five. cbn.
    repeat split; do 3 f_equal; lia.
Qed.

Lemma read_after_add_counts_merges_witness :
  (Listogram.frequency "x"
     (Listogram.add_counts [("x"%string, 1); ("x"%string, 2)]
        (Listogram.__init__ (Some ["x"%string; "x"%string])))).2 = Ok 5 /\
  (Dictogram.items
     (Dictogram.add_counts [("x"%string, 1); ("x"%string, 2)]
        (Dictogram.__init__ (Some ["x"%string; "x"%string])))).2
  = Ok [("x"%string, 5)] /\
  bins (dist (Listogram.frequency "x"
                (Listogram.add_counts [("x"%string, 1); ("x"%string, 2)]
                   (Listogram.__init__ (Some ["x"%string; "x"%string])))).1)
  = [mkBin "x" (inject_Z 5)].
Proof.
  split; [|split].
  - pose proof (proj1 read_after_add_counts_merges
                  (Listogram.__init__ (Some ["x"%string; "x"%string]))
                  [("x"%string, 1); ("x"%string, 2)] "x"%string) as H.
    destruct H as (_ & H & _); [discriminate | exact H].
  - pose proof (proj1 (proj2 read_after_add_counts_merges)
                  (Dictogram.__init__ (Some ["x"%string; "x"%string]))
                  [("x"%string, 1); ("x"%string, 2)] "x"%string) as H.
    destruct H as (_ & _ & _ & H & _); [discriminate | exact H].
  - pose proof (proj2 (proj2 read_after_add_counts_merges) 1 2
                  (fun _ _ => 0)) as H.
    destruct H as (H5 & _ & H & _); [reflexivity|].
    rewrite <- H5. exact H.
Defined.

(** C3 fails on the code. A read after a burst of [add_count] calls merges
    whatever [temp_word_to_freq] holds, and that is every count since the
    object was built, not only the burst: on a [Listogram] or [Dictogram]
    built from two occurrences of x, after [add_count(x, 1)] and a read
    (which answers 3), a second burst [add_count(x, 1)] makes the next read
    answer 5 and rebuild the mapping and the cumulative table with 5, where
    the mapping before the burst plus the burst is 4. And [index_of], after a
    burst, merges and then raises [NameError] instead of answering. *)
Theorem read_after_later_burst_counts_twice :
  (let x := "x"%string in
   let first := Listogram.frequency x
                  (Listogram.add_counts [(x, 1)] (Listogram.__init__ (Some [x; x]))) in
   let burst := Listogram.add_counts [(x, 1)] first.1 in
   first.2 = Ok 3 /\
   word_to_freq (dist burst) = [(x, 3)] /\
   dict_get (word_to_freq (dist burst)) x 0 + delta_sum x [(x, 1)] = 4 /\
   (Listogram.frequency x burst).2 = Ok 5 /\
   word_to_freq (dist (Listogram.frequency x burst).1) = [(x, 5)] /\
   bins (dist (Listogram.frequency x burst).1) = [mkBin x (inject_Z 5)] /\
   word_to_freq (dist (Listogram.__contains__ x burst).1) = [(x, 5)]) /\
  (let x := "x"%string in
   let first := Dictogram.frequency x
                  (Dictogram.add_counts [(x, 1)] (Dictogram.__init__ (Some [x; x]))) in
   let burst := Dictogram.add_counts [(x, 1)] first.1 in
   first.2 = Ok 3 /\
   word_to_freq (dist burst) = [(x, 3)] /\
   dict_get (word_to_freq (dist burst)) x 0 + delta_sum x [(x, 1)] = 4 /\
   (Dictogram.frequency x burst).2 = Ok 5 /\
   (Dictogram.items burst).2 = Ok [(x, 5)] /\
   bins (dist (Dictogram.items burst).1) = [mkBin x (inject_Z 5)]) /\
  (forall binsearch : dict -> string -> Z,
     let x := "x"%string in
     let burst := Listogram.add_counts [(x, 1)] (Listogram.__init__ (Some [x; x])) in
     word_to_freq (dist (Listogram.index_of binsearch x burst).1) = [(x, 3)] /\
     (Listogram.index_of binsearch x burst).2 = Raise NameError).
Proof.
  split; [|split].
  - vm_compute. repeat split; reflexivity.
  - vm_compute. repeat split; reflexivity.
  - intros binsearch. vm_compute. split; reflexivity.
Qed.

(** *** The buffer outlives the rebuild *)

Lemma Listogram_rebuild_keeps_buffer (self : gram) :
  temp_word_to_freq (Listogram.rebuild_with_latent_wordcounts self).1
  = temp_word_to_freq self.
Proof.
  unfold Listogram.rebuild_with_latent_wordcounts. method.
  destruct (last_call_was_add_count _) as [[|]|e]; reflexivity.
Qed.

Lemma Dictogram_rebuild_keeps_buffer (self : gram) :
  temp_word_to_freq (Dictogram.rebuild_with_latent_wordcounts self).1
  = temp_word_to_freq self.
Proof.
  unfold Dictogram.rebuild_with_latent_wordcounts. method.
  destruct (last_call_was_add_count _) as [[|]|e]; reflexivity.
Qed.

Lemma Listogram_frequency_state (w : string) (self : gram) :
  exists d v,
    Listogram.frequency w self
    = (mkGram d (temp_word_to_freq self)
         (log_call "rebuild_with_latent_wordcounts"
            (log_call "frequency" (_logs_ self))),
       Ok v) /\
    v = dict_get (word_to_freq d) w 0.
Proof.
  unfold Listogram.frequency, Listogram.rebuild_with_latent_wordcounts. method.
  destruct (last_call_was_add_count_ok
              (mkGram (dist self) (temp_word_to_freq self)
                 (log_call "rebuild_with_latent_wordcounts"
                    (log_call "frequency" (_logs_ self))))) as [b E].
  rewrite E. destruct b; cbn; eexists; eexists; split; reflexivity.
Qed.

Lemma Dictogram_frequency_state (w : string) (self : gram) :
  exists d v,
    Dictogram.frequency w self
    = (mkGram d (temp_word_to_freq self)
         (log_call "rebuild_with_latent_wordcounts"
            (log_call "frequency" (_logs_ self))),
       Ok v) /\
    v = dict_get (word_to_freq d) w 0.
Proof.
  unfold Dictogram.frequency, Dictogram.rebuild_with_latent_wordcounts. method.
  destruct (last_call_was_add_count_ok
              (mkGram (dist self) (temp_word_to_freq self)
                 (log_call "rebuild_with_latent_wordcounts"
                    (log_call "frequency" (_logs_ self))))) as [b E].
  rewrite E. destruct b; cbn; eexists; eexists; split; reflexivity.
Qed.

(** A read that follows a read rebuilds nothing. *)
Lemma Listogram_second_read_keeps_dist (w w' : string) (self : gram) :
  dist (Listogram.frequency w' (Listogram.frequency w self).1).1
  = dist (Listogram.frequency w self).1.
Proof.
  destruct (Listogram_frequency_state w self) as (d & v & E & _).
  rewrite E. cbn [fst].
  unfold Listogram.frequency, Listogram.rebuild_with_latent_wordcounts. method.
  rewrite last_call_after_three. reflexivity.
Qed.

(** C8 fails on the code: [rebuild_with_latent_wordcounts] never empties
    [temp_word_to_freq], so a count merged by one read is merged again by the
    read after the next [add_count]. Built from two occurrences of x, a
    [Listogram] (or [Dictogram]) that gets [add_count(x, 1)], a read,
    [add_count(x, 1)] and a read reports 5 for x, not 4; the buffer still
    holds the first count after the first read. *)
Theorem buffered_count_merged_twice :
  (forall self,
     temp_word_to_freq (Listogram.rebuild_with_latent_wordcounts self).1
     = temp_word_to_freq self) /\
  (forall self,
     temp_word_to_freq (Dictogram.rebuild_with_latent_wordcounts self).1
     = temp_word_to_freq self) /\
  (let x := "x"%string in
   let r1 := Listogram.frequency x
               (Listogram.add_count x 1 (Listogram.__init__ (Some [x; x]))).1 in
   let r2 := Listogram.frequency x (Listogram.add_count x 1 r1.1).1 in
   r1.2 = Ok 3 /\ temp_word_to_freq r1.1 = [(x, 1)] /\
   r2.2 = Ok 5 /\ word_to_freq (dist r2.1) = [(x, 5)] /\
   bins (dist r2.1) = [mkBin x (inject_Z 5)]) /\
  (let x := "x"%string in
   let r1 := Dictogram.frequency x
               (Dictogram.add_count x 1 (Dictogram.__init__ (Some [x; x]))).1 in
   let r2 := Dictogram.frequency x (Dictogram.add_count x 1 r1.1).1 in
   r1.2 = Ok 3 /\ temp_word_to_freq r1.1 = [(x, 1)] /\
   r2.2 = Ok 5 /\ word_to_freq (dist r2.1) = [(x, 5)] /\
   bins (dist r2.1) = [mkBin x (inject_Z 5)]).
Proof.
  split; [exact Listogram_rebuild_keeps_buffer|].
  split; [exact Dictogram_rebuild_keeps_buffer|].
  split; vm_compute; repeat split; reflexivity.
Qed.

(** ** [Listogram.index_of] *)

(** C9 fails on the code: [index_of] calls [bin_search], a name the module
    does not bind (it imports [binsearch]; [Gram.bin_search] is a static
    method), so after the rebuild every call ends in [NameError], for a word
    that is present as for one that is absent. *)
Theorem index_of_raises_NameError :
  (forall (binsearch : dict -> string -> Z) (target : string) (self : gram),
     (Listogram.index_of binsearch target self).2 = Raise NameError /\
     (Listogram._index binsearch target self).2 = Raise NameError) /\
  (forall binsearch : dict -> string -> Z,
     (Listogram.index_of binsearch "a" (Listogram.__init__ (Some ["a"%string]))).2
     = Raise NameError).
Proof.
  assert (H : forall binsearch target self,
             (Listogram.index_of binsearch target self).2 = Raise NameError).
  { intros binsearch target self.
    unfold Listogram.index_of, Listogram.rebuild_with_latent_wordcounts. method.
    destruct (last_call_was_add_count_ok
                (mkGram (dist self) (temp_word_to_freq self)
                   (log_call "rebuild_with_latent_wordcounts"
                      (log_call "index_of" (_logs_ self))))) as [b E].
    rewrite E. destruct b; reflexivity. }
  split; [|intros; apply H].
  intros binsearch target self. split; [apply H|].
  unfold Listogram._index. unfold logged at 1. unfold bind at 1.
  destruct (Listogram.rebuild_with_latent_wordcounts _) as [s' [[]|e]] eqn:E.
  - apply H.
  - exfalso. revert E.
    unfold Listogram.rebuild_with_latent_wordcounts. method.
    match goal with |- context [last_call_was_add_count ?s] =>
      destruct (last_call_was_add_count_ok s) as [b Eb]; rewrite Eb end.
    destruct b; discriminate.
Qed.

(** ** [frequency] of an absent word *)

Lemma Histogram_frequency_lookup (self : FreqDist) (w : string) :
  Histogram.frequency self w
  = match dict_lookup (word_to_freq self) w with
    | Some c => Ok c
    | None => Raise KeyError
    end.
Proof. reflexivity. Qed.

(** C4 fails on the code for [Histogram]: its [frequency] is [self[word]],
    which raises [KeyError] for a word the mapping does not hold, where
    [Listogram.frequency] and [Dictogram.frequency] go through
    [self.get(word, 0)] and return 0. *)
Theorem Histogram_frequency_absent_raises :
  (forall line_as_words,
     Histogram.__init__ line_as_words None (Some [("a"%string, 1)])
     = Ok (FreqDist_init [("a"%string, 1)])) /\
  Histogram.frequency (FreqDist_init [("a"%string, 1)]) "a" = Ok 1 /\
  Histogram.frequency (FreqDist_init [("a"%string, 1)]) "b" = Raise KeyError /\
  (forall self w, exists v,
     (Listogram.frequency w self).2 = Ok v /\
     v = dict_get (word_to_freq (dist (Listogram.frequency w self).1)) w 0) /\
  (forall self w, exists v,
     (Dictogram.frequency w self).2 = Ok v /\
     v = dict_get (word_to_freq (dist (Dictogram.frequency w self).1)) w 0) /\
  (Listogram.frequency "b" (Listogram.__init__ (Some ["a"%string]))).2 = Ok 0 /\
  (Dictogram.frequency "b" (Dictogram.__init__ (Some ["a"%string]))).2 = Ok 0.
Proof.
  split; [reflexivity|]. split; [reflexivity|]. split; [reflexivity|].
  split; [|split; [|split; reflexivity]].
  - intros self w. destruct (Listogram_frequency_state w self) as (d & v & E & Hv).
    exists v. rewrite E. split; [reflexivity | exact Hv].
  - intros self w. destruct (Dictogram_frequency_state w self) as (d & v & E & Hv).
    exists v. rewrite E. split; [reflexivity | exact Hv].
Qed.

(** ** Buckets *)

Section BucketFacts.
Context {K V : Type} `{EqDecision K}.
Implicit Types (ll : list (K * V)) (k : K) (v : V).

Local Abbreviation has_key := (@HashTable.has_key K V _).

Lemma has_key_true k (item : K * V) : has_key k item = true <-> item.1 = k.
Proof. unfold HashTable.has_key. apply bool_decide_eq_true. Qed.

Lemma has_key_false k (item : K * V) : has_key k item = false <-> item.1 <> k.
Proof. unfold HashTable.has_key. apply bool_decide_eq_false. Qed.

Lemma replace_upsert k v ll :
  LinkedList.replace (has_key k) (Some (k, v)) ll = Ok (upsert k v ll).
Proof.
  unfold LinkedList.replace, upsert.
  destruct (LinkedList.replace_first _ _ ll); reflexivity.
Qed.

Lemma replace_first_find k v ll :
  LinkedList.replace_first (has_key k) (k, v) ll = None
  <-> LinkedList.find (has_key k) ll = None.
Proof.
  unfold LinkedList.find. induction ll as [|x rest IH]; simpl; [tauto|].
  destruct (has_key k x); [split; discriminate|].
  destruct (LinkedList.replace_first _ _ rest); simpl.
  - split; [discriminate|]. intros Hf. apply IH in Hf. discriminate.
  - split; [|reflexivity]. intros _. apply IH. reflexivity.
Qed.

Lemma find_upsert k v k' ll :
  LinkedList.find (has_key k') (upsert k v ll)
  = if decide (k = k') then Some (k, v) else LinkedList.find (has_key k') ll.
Proof.
  unfold upsert, LinkedList.find. induction ll as [|x rest IH]; simpl.
  - unfold HashTable.has_key at 1. simpl.
    destruct (decide (k = k')) as [->|Hne].
    + rewrite bool_decide_eq_true_2; reflexivity.
    + rewrite bool_decide_eq_false_2; [reflexivity | assumption].
  - destruct (has_key k x) eqn:Ex.
    + apply has_key_true in Ex. simpl.
      unfold HashTable.has_key at 1. simpl.
      destruct (decide (k = k')) as [->|Hne].
      * rewrite bool_decide_eq_true_2; reflexivity.
      * rewrite bool_decide_eq_false_2 by assumption.
        assert (E : has_key k' x = false) by (apply has_key_false; congruence).
        rewrite E. reflexivity.
    + apply has_key_false in Ex.
      destruct (LinkedList.replace_first (has_key k) (k, v) rest) as [rest'|] eqn:Er;
        simpl in *.
      * destruct (has_key k' x) eqn:Ex'; [|exact IH].
        apply has_key_true in Ex'.
        destruct (decide (k = k')); [congruence | reflexivity].
      * destruct (has_key k' x) eqn:Ex'; [|exact IH].
        apply has_key_true in Ex'.
        destruct (decide (k = k')); [congruence | reflexivity].
Qed.

Lemma length_upsert k v ll :
  LinkedList.length (upsert k v ll)
  = LinkedList.length ll
    + (match LinkedList.find (has_key k) ll with Some _ => 0 | None => 1 end).
Proof.
  unfold upsert, LinkedList.length, LinkedList.find, len.
  induction ll as [|x rest IH]; simpl; [reflexivity|].
  destruct (has_key k x) eqn:Ex; simpl; [lia|].
  destruct (LinkedList.replace_first (has_key k) (k, v) rest) as [rest'|] eqn:Er;
    simpl in *; destruct (List.find (has_key k) rest); lia.
Qed.

Lemma remove_first_find k ll :
  LinkedList.remove_first (has_key k) ll = None
  <-> LinkedList.find (has_key k) ll = None.
Proof.
  unfold LinkedList.find. induction ll as [|x rest IH]; simpl; [tauto|].
  destruct (has_key k x); [split; discriminate|].
  destruct (LinkedList.remove_first _ rest); simpl.
  - split; [discriminate|]. intros Hf. apply IH in Hf. discriminate.
  - split; [|reflexivity]. intros _. apply IH. reflexivity.
Qed.

Lemma length_remove_first k ll ll' :
  LinkedList.remove_first (has_key k) ll = Some ll' ->
  LinkedList.length ll' = LinkedList.length ll - 1.
Proof.
  unfold LinkedList.length, len. revert ll'.
  induction ll as [|x rest IH]; intros ll'; simpl; [discriminate|].
  destruct (has_key k x).
  - intros E. inversion E; subst. lia.
  - destruct (LinkedList.remove_first _ rest) as [rest'|]; simpl; [|discriminate].
    intros E. inversion E; subst. simpl. specialize (IH rest' eq_refl). lia.
Qed.

Lemma find_not_in k ll :
  k ∉ map fst ll -> LinkedList.find (has_key k) ll = None.
Proof.
  unfold LinkedList.find. induction ll as [|x rest IH]; simpl; [reflexivity|].
  intros Hnin. apply not_elem_of_cons in Hnin as [Hne Hnin].
  assert (E : has_key k x = false) by (apply has_key_false; congruence).
  rewrite E. apply IH. assumption.
Qed.

Lemma find_remove_first k k' ll ll' :
  NoDup (map fst ll) ->
  LinkedList.remove_first (has_key k) ll = Some ll' ->
  LinkedList.find (has_key k') ll'
  = if decide (k = k') then None else LinkedList.find (has_key k') ll.
Proof.
  unfold LinkedList.find. revert ll'.
  induction ll as [|x rest IH]; intros ll' Hnd; simpl; [discriminate|].
  apply NoDup_cons in Hnd as [Hx Hnd].
  destruct (has_key k x) eqn:Ex.
  - intros E. inversion E; subst ll'. apply has_key_true in Ex.
    destruct (decide (k = k')) as [<-|Hne].
    + apply find_not_in. rewrite <- Ex. exact Hx.
    + assert (E' : has_key k' x = false) by (apply has_key_false; congruence).
      rewrite E'. reflexivity.
  - destruct (LinkedList.remove_first _ rest) as [rest'|]; simpl; [|discriminate].
    intros E. inversion E; subst ll'. simpl.
    apply has_key_false in Ex.
    destruct (has_key k' x) eqn:Ex'.
    + apply has_key_true in Ex'. destruct (decide (k = k')); [congruence | reflexivity].
    + apply IH; [assumption | reflexivity].
Qed.

Lemma find_none_not_in k ll :
  LinkedList.find (has_key k) ll = None -> k ∉ map fst ll.
Proof.
  unfold LinkedList.find. induction ll as [|x rest IH]; simpl.
  - intros _ Hin. inversion Hin.
  - destruct (has_key k x) eqn:Ex; [discriminate|].
    apply has_key_false in Ex. intros Hf.
    apply not_elem_of_cons. split; [congruence | apply IH; assumption].
Qed.

Lemma replace_first_keys k v ll ll' :
  LinkedList.replace_first (has_key k) (k, v) ll = Some ll' ->
  map fst ll' = map fst ll.
Proof.
  revert ll'. induction ll as [|x rest IH]; intros ll'; simpl; [discriminate|].
  destruct (has_key k x) eqn:Ex.
  - intros E. inversion E; subst ll'. apply has_key_true in Ex.
    simpl. congruence.
  - destruct (LinkedList.replace_first _ _ rest) as [rest'|]; simpl; [|discriminate].
    intros E. inversion E; subst ll'. simpl. f_equal. apply IH. reflexivity.
Qed.

Lemma NoDup_upsert k v ll :
  NoDup (map fst ll) -> NoDup (map fst (upsert k v ll)).
Proof.
  intros Hnd. unfold upsert.
  destruct (LinkedList.replace_first (has_key k) (k, v) ll) as [ll'|] eqn:E.
  - rewrite (replace_first_keys k v ll ll' E). assumption.
  - rewrite map_app. simpl. apply NoDup_app. split; [assumption|].
    split; [|apply NoDup_singleton].
    intros y Hy Hy'. apply list_elem_of_singleton in Hy'. subst y.
    apply replace_first_find in E. apply find_none_not_in in E. contradiction.
Qed.

Lemma remove_first_keys k ll ll' :
  LinkedList.remove_first (has_key k) ll = Some ll' ->
  forall y, y ∈ map fst ll' -> y ∈ map fst ll.
Proof.
  revert ll'. induction ll as [|x rest IH]; intros ll'; simpl; [discriminate|].
  destruct (has_key k x).
  - intros E y Hy. inversion E; subst ll'. apply elem_of_cons. right. assumption.
  - destruct (LinkedList.remove_first _ rest) as [rest'|]; simpl; [|discriminate].
    intros E y Hy. inversion E; subst ll'. simpl in Hy.
    apply elem_of_cons in Hy as [->|Hy]; apply elem_of_cons; [left; reflexivity|].
    right. apply (IH rest' eq_refl). assumption.
Qed.

Lemma NoDup_remove_first k ll ll' :
  LinkedList.remove_first (has_key k) ll = Some ll' ->
  NoDup (map fst ll) -> NoDup (map fst ll').
Proof.
  revert ll'. induction ll as [|x rest IH]; intros ll'; simpl; [discriminate|].
  destruct (has_key k x).
  - intros E Hnd. inversion E; subst ll'. apply NoDup_cons in Hnd as [_ Hnd]. assumption.
  - destruct (LinkedList.remove_first _ rest) as [rest'|] eqn:Er; simpl; [|discriminate].
    intros E Hnd. inversion E; subst ll'. simpl.
    apply NoDup_cons in Hnd as [Hx Hnd]. apply NoDup_cons. split.
    + intros Hin. apply Hx. apply (remove_first_keys k rest rest' Er). assumption.
    + apply IH; [reflexivity | assumption].
Qed.
End BucketFacts.

(** ** The hash table *)

Section HashTableFacts.
Context {K V : Type} `{EqDecision K}.
Variable hash : K -> Z.
Implicit Types (self : @HashTable.t K V) (key : K) (value : V).

Local Abbreviation has_key := (@HashTable.has_key K V _).

Lemma slot_in_range self key :
  0 < len (HashTable.buckets self) ->
  exists ll,
    HashTable.buckets self !! slot hash self key = Some ll /\
    getitem (HashTable.buckets self) (hash key mod len (HashTable.buckets self))
    = Some ll.
Proof.
  intros Hlen.
  pose proof (Z.mod_pos_bound (hash key) _ Hlen) as Hmod.
  destruct (getitem_in_range (HashTable.buckets self) _ Hmod) as (ll & Hg & Hl).
  exists ll. split; assumption.
Qed.

Lemma get_value_of self key :
  0 < len (HashTable.buckets self) ->
  HashTable.get hash key self
  = (self, match value_of hash self key with
           | Some v => Ok v
           | None => Raise KeyError
           end).
Proof.
  intros Hlen. destruct (slot_in_range self key Hlen) as (ll & Hl & Hg).
  unfold HashTable.get, HashTable._bucket_index, HashTable.bucket_at, value_of.
  unfold bind, get_self, ret, raise.
  assert (E : (len (HashTable.buckets self) =? 0) = false) by (apply Z.eqb_neq; lia).
  rewrite E, Hg, Hl.
  destruct (LinkedList.find (has_key key) ll); reflexivity.
Qed.

Lemma set_state self key value ll :
  0 < len (HashTable.buckets self) ->
  HashTable.buckets self !! slot hash self key = Some ll ->
  HashTable.set hash key value self
  = (HashTable.mk (<[slot hash self key := upsert key value ll]> (HashTable.buckets self))
       (HashTable.table_size self + - LinkedList.length ll
        + LinkedList.length (upsert key value ll))
       (HashTable.load_factor self),
     Ok tt).
Proof.
  intros Hlen Hl. destruct (slot_in_range self key Hlen) as (ll0 & Hl0 & Hg).
  rewrite Hl in Hl0. inversion Hl0; subst ll0.
  pose proof (Z.mod_pos_bound (hash key) _ Hlen) as Hmod.
  unfold HashTable.set, HashTable._bucket_index, HashTable.bucket_at,
    HashTable.add_table_size, HashTable.store_bucket.
  unfold bind, get_self, put_self, lift, ret, raise.
  assert (E : (len (HashTable.buckets self) =? 0) = false) by (apply Z.eqb_neq; lia).
  rewrite E, Hg. cbn [HashTable.buckets HashTable.table_size HashTable.load_factor].
  rewrite replace_upsert.
  cbn [HashTable.buckets HashTable.table_size HashTable.load_factor].
  rewrite getitem_nonneg by lia. fold (slot hash self key).
  rewrite list_lookup_insert_eq; [reflexivity|].
  eapply lookup_lt_Some. exact Hl.
Qed.

Lemma delete_state self key ll :
  0 < len (HashTable.buckets self) ->
  HashTable.buckets self !! slot hash self key = Some ll ->
  HashTable.delete hash key self
  = match LinkedList.remove_first (has_key key) ll with
    | Some ll' =>
        (HashTable.mk (<[slot hash self key := ll']> (HashTable.buckets self))
           (HashTable.table_size self + -1) (HashTable.load_factor self),
         Ok tt)
    | None => (self, Raise KeyError)
    end.
Proof.
  intros Hlen Hl. destruct (slot_in_range self key Hlen) as (ll0 & Hl0 & Hg).
  rewrite Hl in Hl0. inversion Hl0; subst ll0.
  unfold HashTable.delete, HashTable._bucket_index, HashTable.bucket_at,
    HashTable.add_table_size, HashTable.store_bucket.
  unfold bind, get_self, put_self, lift, ret, raise.
  assert (E : (len (HashTable.buckets self) =? 0) = false) by (apply Z.eqb_neq; lia).
  rewrite E, Hg. unfold LinkedList.replace.
  destruct (LinkedList.remove_first (has_key key) ll); reflexivity.
Qed.

(** Without buckets every call stops at the modulo. *)
Lemma apply_no_buckets self (o : HashTable.op) :
  HashTable.buckets self = [] ->
  HashTable.apply hash o self = (self, Raise ZeroDivisionError).
Proof.
  intros E. destruct o; simpl;
    unfold HashTable.set, HashTable.delete, HashTable._bucket_index,
      bind, get_self, raise; rewrite E; reflexivity.
Qed.
End HashTableFacts.

Section HashTableClaims.
Context {K V : Type} `{EqDecision K}.
Variable hash : K -> Z.
Implicit Types (self : @HashTable.t K V) (key : K) (value : V).

Local Abbreviation has_key := (@HashTable.has_key K V _).

Lemma slot_insert self key i (ll : list (K * V)) tsize lf :
  slot hash (HashTable.mk (<[i := ll]> (HashTable.buckets self)) tsize lf) key
  = slot hash self key.
Proof.
  unfold slot, len. cbn [HashTable.buckets].
  rewrite length_insert. reflexivity.
Qed.

Lemma value_of_set self key value key' :
  0 < len (HashTable.buckets self) ->
  value_of hash (HashTable.set hash key value self).1 key'
  = if decide (key = key') then Some value else value_of hash self key'.
Proof.
  intros Hlen. destruct (slot_in_range hash self key Hlen) as (ll & Hl & _).
  rewrite (set_state hash self key value ll Hlen Hl). cbn [fst].
  unfold value_of. rewrite slot_insert. cbn [HashTable.buckets].
  destruct (decide (slot hash self key = slot hash self key')) as [Es|Es].
  - rewrite <- Es, Hl.
    rewrite list_lookup_insert_eq by (eapply lookup_lt_Some; exact Hl).
    rewrite find_upsert. destruct (decide (key = key')); reflexivity.
  - rewrite list_lookup_insert_ne by assumption.
    destruct (decide (key = key')) as [->|]; [congruence | reflexivity].
Qed.

Lemma value_of_delete self key key' :
  0 < len (HashTable.buckets self) -> distinct_keys self ->
  value_of hash (HashTable.delete hash key self).1 key'
  = if decide (key = key') then None else value_of hash self key'.
Proof.
  intros Hlen Hd. destruct (slot_in_range hash self key Hlen) as (ll & Hl & _).
  rewrite (delete_state hash self key ll Hlen Hl).
  destruct (LinkedList.remove_first (has_key key) ll) as [ll'|] eqn:Er; cbn [fst].
  - unfold value_of. rewrite slot_insert. cbn [HashTable.buckets].
    destruct (decide (slot hash self key = slot hash self key')) as [Es|Es].
    + rewrite <- Es, Hl.
      rewrite list_lookup_insert_eq by (eapply lookup_lt_Some; exact Hl).
      rewrite (find_remove_first key key' ll ll');
        [| exact (Forall_lookup_1 _ _ _ _ Hd Hl) | exact Er].
      destruct (decide (key = key')); reflexivity.
    + rewrite list_lookup_insert_ne by assumption.
      destruct (decide (key = key')) as [->|]; [congruence | reflexivity].
  - destruct (decide (key = key')) as [<-|]; [|reflexivity].
    unfold value_of. rewrite Hl.
    apply remove_first_find in Er. rewrite Er. reflexivity.
Qed.

Lemma apply_preserves self (o : HashTable.op) :
  0 < len (HashTable.buckets self) -> distinct_keys self ->
  0 < len (HashTable.buckets (HashTable.apply hash o self).1) /\
  distinct_keys (HashTable.apply hash o self).1.
Proof.
  intros Hlen Hd. destruct o as [key value|key]; simpl;
    destruct (slot_in_range hash self key Hlen) as (ll & Hl & _).
  - rewrite (set_state hash self key value ll Hlen Hl). cbn [fst].
    unfold distinct_keys, len in *. cbn [HashTable.buckets].
    rewrite length_insert. split; [assumption|].
    apply Forall_insert; [assumption|].
    apply NoDup_upsert. exact (Forall_lookup_1 _ _ _ _ Hd Hl).
  - rewrite (delete_state hash self key ll Hlen Hl).
    destruct (LinkedList.remove_first (has_key key) ll) as [ll'|] eqn:Er; cbn [fst].
    + unfold distinct_keys, len in *. cbn [HashTable.buckets].
      rewrite length_insert. split; [assumption|].
      apply Forall_insert; [assumption|].
      apply (NoDup_remove_first key ll ll' Er).
      exact (Forall_lookup_1 _ _ _ _ Hd Hl).
    + split; assumption.
Qed.

(** [latest], started from what the table holds for [key]. *)
Lemma value_of_after (ops : list HashTable.op) key : forall self,
  0 < len (HashTable.buckets self) -> distinct_keys self ->
  0 < len (HashTable.buckets (HashTable.after hash ops self)) /\
  value_of hash (HashTable.after hash ops self) key
  = foldl (fun acc o =>
             match o with
             | HashTable.Set_ k v => if decide (k = key) then Some v else acc
             | HashTable.Delete k => if decide (k = key) then None else acc
             end) (value_of hash self key) ops.
Proof.
  induction ops as [|o ops IH]; intros self Hlen Hd;
    [split; [assumption | reflexivity]|].
  change (HashTable.after hash (o :: ops) self)
    with (HashTable.after hash ops (HashTable.apply hash o self).1).
  destruct (apply_preserves self o Hlen Hd) as [Hlen' Hd'].
  destruct (IH _ Hlen' Hd') as [Hlen'' E]. split; [assumption|].
  rewrite E. cbn [foldl]. f_equal.
  destruct o as [k v|k]; cbn [HashTable.apply].
  - apply value_of_set. assumption.
  - apply value_of_delete; assumption.
Qed.

Lemma init_buckets (init_size : Z) :
  len (HashTable.buckets (@HashTable.__init__ K V init_size)) = Z.max 0 init_size.
Proof.
  unfold HashTable.__init__, len. cbn [HashTable.buckets].
  rewrite length_replicate. lia.
Qed.

Lemma init_distinct_keys (init_size : Z) :
  distinct_keys (@HashTable.__init__ K V init_size).
Proof.
  unfold distinct_keys, HashTable.__init__. cbn [HashTable.buckets].
  apply Forall_replicate. simpl. apply NoDup_nil_2.
Qed.

Lemma init_value_of (init_size : Z) key :
  value_of hash (@HashTable.__init__ K V init_size) key = None.
Proof.
  unfold value_of, HashTable.__init__. cbn [HashTable.buckets].
  destruct (replicate _ _ !! _) as [ll|] eqn:E; [|reflexivity].
  apply lookup_replicate in E as [-> _]. reflexivity.
Qed.

(** C5. On a table built with at least one bucket, after any sequence of
    [set] and [delete] calls, [get(key)] returns the value of the most
    recent [set(key, _)] that no [delete(key)] followed, and raises
    [KeyError] if there is none; the table is left as it is. *)
Theorem get_after_set_delete (init_size : Z) (ops : list HashTable.op) key :
  0 < init_size ->
  HashTable.get hash key (HashTable.after hash ops (HashTable.__init__ init_size))
  = (HashTable.after hash ops (HashTable.__init__ init_size),
     match HashTable.latest key ops return result V with
     | Some v => Ok v
     | None => Raise KeyError
     end).
Proof.
  intros Hsize.
  assert (Hlen : 0 < len (HashTable.buckets (@HashTable.__init__ K V init_size)))
    by (rewrite init_buckets; lia).
  destruct (value_of_after ops key _ Hlen (init_distinct_keys init_size)) as [Hlen' E].
  rewrite get_value_of by assumption.
  rewrite E, init_value_of. reflexivity.
Qed.

Lemma length_insert_bucket (bs : list (list (K * V))) (i : nat) (ll ll' : list (K * V)) :
  bs !! i = Some ll ->
  foldr Z.add 0 (map LinkedList.length (<[i := ll']> bs))
  = foldr Z.add 0 (map LinkedList.length bs)
    - LinkedList.length ll + LinkedList.length ll'.
Proof.
  revert i. induction bs as [|b bs IH]; intros i Hl; [discriminate|].
  destruct i as [|i]; simpl in *.
  - inversion Hl; subst b. lia.
  - rewrite (IH i Hl). lia.
Qed.

Lemma contains_value_of self key :
  0 < len (HashTable.buckets self) ->
  HashTable.contains hash key self
  = match value_of hash self key with Some _ => true | None => false end.
Proof.
  intros Hlen. unfold HashTable.contains. rewrite get_value_of by assumption.
  destruct (value_of hash self key); reflexivity.
Qed.

Lemma contains_find self key ll :
  0 < len (HashTable.buckets self) ->
  HashTable.buckets self !! slot hash self key = Some ll ->
  HashTable.contains hash key self
  = match LinkedList.find (has_key key) ll with Some _ => true | None => false end.
Proof.
  intros Hlen Hl. rewrite contains_value_of by assumption.
  unfold value_of. rewrite Hl.
  destruct (LinkedList.find (has_key key) ll); reflexivity.
Qed.

Lemma no_buckets_or_some self :
  HashTable.buckets self = [] \/ 0 < len (HashTable.buckets self).
Proof.
  unfold len. destruct (HashTable.buckets self); [left; reflexivity|].
  right. simpl. lia.
Qed.

Lemma apply_keeps_size self (o : HashTable.op) :
  HashTable.table_size self = HashTable.length self ->
  HashTable.table_size (HashTable.apply hash o self).1
  = HashTable.length (HashTable.apply hash o self).1.
Proof.
  intros Hsize.
  destruct (no_buckets_or_some self) as [Eb|Hlen].
  { rewrite apply_no_buckets by assumption. assumption. }
  destruct o as [key value|key]; cbn [HashTable.apply];
    destruct (slot_in_range hash self key Hlen) as (ll & Hl & _).
  - rewrite (set_state hash self key value ll Hlen Hl). cbn [fst].
    unfold HashTable.length in *. cbn [HashTable.buckets HashTable.table_size].
    rewrite (length_insert_bucket _ _ ll _ Hl). lia.
  - rewrite (delete_state hash self key ll Hlen Hl).
    destruct (LinkedList.remove_first (has_key key) ll) as [ll'|] eqn:Er; cbn [fst];
      [|assumption].
    unfold HashTable.length in *. cbn [HashTable.buckets HashTable.table_size].
    rewrite (length_insert_bucket _ _ ll _ Hl).
    rewrite (length_remove_first key ll ll' Er). lia.
Qed.

Lemma after_keeps_size (ops : list HashTable.op) : forall self,
  HashTable.table_size self = HashTable.length self ->
  HashTable.table_size (HashTable.after hash ops self)
  = HashTable.length (HashTable.after hash ops self).
Proof.
  induction ops as [|o ops IH]; intros self Hsize; [assumption|].
  change (HashTable.after hash (o :: ops) self)
    with (HashTable.after hash ops (HashTable.apply hash o self).1).
  apply IH. apply apply_keeps_size. assumption.
Qed.

Lemma after_keeps_buckets (ops : list HashTable.op) : forall self,
  len (HashTable.buckets (HashTable.after hash ops self))
  = len (HashTable.buckets self).
Proof.
  induction ops as [|o ops IH]; intros self; [reflexivity|].
  change (HashTable.after hash (o :: ops) self)
    with (HashTable.after hash ops (HashTable.apply hash o self).1).
  rewrite IH.
  destruct (no_buckets_or_some self) as [Eb|Hlen].
  { rewrite apply_no_buckets by assumption. reflexivity. }
  destruct o as [key value|key]; cbn [HashTable.apply];
    destruct (slot_in_range hash self key Hlen) as (ll & Hl & _).
  - rewrite (set_state hash self key value ll Hlen Hl). cbn [fst HashTable.buckets].
    unfold len. rewrite length_insert. reflexivity.
  - rewrite (delete_state hash self key ll Hlen Hl).
    destruct (LinkedList.remove_first (has_key key) ll); cbn [fst HashTable.buckets];
      [|reflexivity].
    unfold len. rewrite length_insert. reflexivity.
Qed.

(** C6. After any sequence of [set] and [delete] calls on a new table,
    [table_size] is the sum of the bucket lengths that [length] computes;
    and on a table with buckets, [set(key, value)] succeeds and adds 1 to
    [table_size] when the table did not contain [key], 0 when it did. *)
Theorem table_size_is_length (init_size : Z) (ops : list HashTable.op) :
  let self := HashTable.after hash ops (@HashTable.__init__ K V init_size) in
  HashTable.table_size self = HashTable.length self /\
  (0 < init_size ->
   forall key value,
     (HashTable.set hash key value self).2 = Ok tt /\
     HashTable.table_size (HashTable.set hash key value self).1
     = HashTable.table_size self
       + (if HashTable.contains hash key self then 0 else 1)).
Proof.
  intros self. split.
  - apply after_keeps_size. unfold HashTable.__init__, HashTable.length.
    cbn [HashTable.buckets HashTable.table_size].
    induction (Z.to_nat init_size) as [|n IH]; simpl; [reflexivity|].
    rewrite <- IH. reflexivity.
  - intros Hsize key value.
    assert (Hlen : 0 < len (HashTable.buckets self)).
    { subst self. rewrite after_keeps_buckets, init_buckets. lia. }
    destruct (slot_in_range hash self key Hlen) as (ll & Hl & _).
    rewrite (set_state hash self key value ll Hlen Hl). cbn [fst snd].
    split; [reflexivity|]. cbn [HashTable.table_size].
    rewrite (contains_find self key ll Hlen Hl), length_upsert.
    destruct (LinkedList.find (has_key key) ll); lia.
Qed.

(** C7. On a table with buckets, [delete(key)] of a key the table does not
    contain raises [KeyError] and leaves buckets and [table_size] as they
    are; of a key it contains, it succeeds and takes 1 off [table_size]
    (and off the sum of the bucket lengths). *)
Theorem delete_absent_or_present self key :
  HashTable.buckets self <> [] ->
  (HashTable.contains hash key self = false ->
     HashTable.delete hash key self = (self, Raise KeyError)) /\
  (HashTable.contains hash key self = true ->
     (HashTable.delete hash key self).2 = Ok tt /\
     HashTable.table_size (HashTable.delete hash key self).1
     = HashTable.table_size self - 1 /\
     HashTable.length (HashTable.delete hash key self).1
     = HashTable.length self - 1).
Proof.
  intros Hne.
  assert (Hlen : 0 < len (HashTable.buckets self)).
  { unfold len. destruct (HashTable.buckets self); [congruence | simpl; lia]. }
  destruct (slot_in_range hash self key Hlen) as (ll & Hl & _).
  rewrite (contains_find self key ll Hlen Hl).
  rewrite (delete_state hash self key ll Hlen Hl).
  destruct (LinkedList.remove_first (has_key key) ll) as [ll'|] eqn:Er.
  - assert (Hf : LinkedList.find (has_key key) ll <> None).
    { intros Hf. apply remove_first_find in Hf. congruence. }
    destruct (LinkedList.find (has_key key) ll); [|congruence].
    split; [discriminate|]. intros _. cbn [fst snd].
    split; [reflexivity|]. split; [cbn [HashTable.table_size]; lia|].
    unfold HashTable.length. cbn [HashTable.buckets].
    rewrite (length_insert_bucket _ _ ll _ Hl).
    rewrite (length_remove_first key ll ll' Er). lia.
  - apply remove_first_find in Er. rewrite Er.
    split; [reflexivity | discriminate].
Qed.
End HashTableClaims.

(** *** The hash table on concrete calls *)

Lemma get_after_set_delete_witness :
  HashTable.get str_hash "V"%string
    (HashTable.after str_hash roman (HashTable.__init__ 8))
  = (HashTable.after str_hash roman (HashTable.__init__ 8), Ok 7).
Proof.
  assert (Hsize : 0 < 8) by lia.
  exact (get_after_set_delete str_hash 8 roman "V"%string Hsize).
Defined.

Lemma table_size_is_length_witness :
  let self := HashTable.after str_hash roman (HashTable.__init__ 8) in
  (HashTable.set str_hash "L"%string 50 self).2 = Ok tt /\
  HashTable.table_size (HashTable.set str_hash "L"%string 50 self).1
  = HashTable.table_size self + 1.
Proof.
  assert (Hsize : 0 < 8) by lia.
  exact (proj2 (table_size_is_length str_hash 8 roman) Hsize "L"%string 50).
Defined.

Lemma delete_absent_or_present_witness :
  let self := HashTable.after str_hash roman (HashTable.__init__ 8) in
  HashTable.delete str_hash "I"%string self = (self, Raise KeyError) /\
  (HashTable.delete str_hash "X"%string self).2 = Ok tt /\
  HashTable.table_size (HashTable.delete str_hash "X"%string self).1
  = HashTable.table_size self - 1.
Proof.
  intros self. split.
  - apply (proj1 (delete_absent_or_present str_hash self "I"%string ltac:(discriminate))).
    reflexivity.
  - destruct (proj2 (delete_absent_or_present str_hash self "X"%string ltac:(discriminate)))
      as (H1 & H2 & _); [reflexivity|].
    split; assumption.
Defined.

(** * Further properties *)

(** ** More on [Gram.bin_search] *)

Lemma midpoint_double (lo hi : Z) :
  2 * ((lo + hi) / 2) <= lo + hi < 2 * ((lo + hi) / 2) + 2.
Proof.
  pose proof (Z.div_mod (lo + hi) 2 ltac:(lia)) as E.
  pose proof (Z.mod_pos_bound (lo + hi) 2 ltac:(lia)) as B.
  lia.
Qed.

(** What a finished run of the loop can have produced. *)
Lemma loop_sound (array : list Bin) (prob : Q) :
  forall fuel lo hi r,
  0 <= lo -> hi <= len array - 1 ->
  Gram.loop fuel array prob lo hi = Some r ->
  match r with
  | Ok (Some i) => 0 <= i < len array /\ stops_at array prob (Z.to_nat i)
  | Ok None => True
  | Raise _ => False
  end.
Proof.
  induction fuel as [|fuel IH]; intros lo hi r Hlo Hhi; simpl.
  - destruct (lo <=? hi); [discriminate|]. intros E. inversion E. exact I.
  - destruct (lo <=? hi) eqn:Ele; [|intros E; inversion E; exact I].
    apply Z.leb_le in Ele.
    destruct (midpoint_bounds lo hi Ele) as [Hmid _].
    set (mid := (lo + hi) / 2) in *.
    unfold Gram.body. fold mid.
    destruct (cumulative_at_in_range array mid) as (b & Hb & Hc); [lia|].
    rewrite Hc. unfold Gram.matches.
    destruct (Qle_bool (cumulative b) prob) eqn:Eb.
    + destruct (mid =? len array - 1) eqn:Elast.
      * intros E. inversion E; subst r. split; [lia|].
        apply Z.eqb_eq in Elast. qprop. split; [exists b; split; assumption|].
        intros b' Hb'. apply lookup_lt_Some in Hb'. unfold len in *. lia.
      * apply Z.eqb_neq in Elast.
        destruct (cumulative_at_in_range array (mid + 1)) as (b1 & Hb1 & Hc1); [lia|].
        rewrite Hc1.
        destruct (Qlt_bool prob (cumulative b1)) eqn:Enext.
        -- intros E. inversion E; subst r. split; [lia|]. qprop.
           split; [exists b; split; assumption|].
           intros b' Hb'.
           replace (Z.to_nat (mid + 1)) with (S (Z.to_nat mid)) in Hb1 by lia.
           rewrite Hb1 in Hb'. inversion Hb'; subst b'. assumption.
        -- destruct (Qlt_bool (cumulative b) prob); apply IH; lia.
    + destruct (Qlt_bool (cumulative b) prob); apply IH; lia.
Qed.

(** X1. [bin_search] answers [None] exactly on the empty table, where it does
    so at once. *)
Theorem bin_search_none_iff_empty :
  (forall fuel prob, Gram.bin_search fuel [] prob = Some (Ok None)) /\
  (forall fuel array prob,
     Gram.bin_search fuel array prob = Some (Ok None) -> array = []).
Proof.
  split.
  - intros fuel prob. destruct fuel; reflexivity.
  - intros fuel array prob E. destruct array as [|b rest]; [reflexivity|].
    exfalso. revert E. unfold Gram.bin_search.
    apply loop_never_none; [| lia | left; reflexivity].
    unfold len. simpl. lia.
Qed.

Lemma bin_search_none_iff_empty_witness : @nil Bin = [].
Proof.
  apply (proj2 bin_search_none_iff_empty 0%nat [] 0%Q). reflexivity.
Defined.

(** X2. Whatever the table, an index that [bin_search] returns lies within
    the table, its cumulative value is at most [prob], and it is the last
    index or the next cumulative value is above [prob]. *)
Theorem bin_search_result_stops (fuel : nat) (array : list Bin) (prob : Q) (i : Z) :
  Gram.bin_search fuel array prob = Some (Ok (Some i)) ->
  0 <= i < len array /\ stops_at array prob (Z.to_nat i).
Proof.
  intros E. apply (loop_sound array prob fuel 0 (len array - 1) _ ltac:(lia) ltac:(lia) E).
Qed.

Lemma bin_search_result_stops_witness :
  0 <= 0 < len abc /\ stops_at abc (5 # 2) (Z.to_nat 0).
Proof.
  apply (bin_search_result_stops 3 abc (5 # 2) 0). reflexivity.
Defined.

(** X3. [bin_search] never raises: every index it reads is within the table. *)
Theorem bin_search_never_raises (fuel : nat) (array : list Bin) (prob : Q) (e : exn) :
  Gram.bin_search fuel array prob <> Some (Raise e).
Proof.
  intros E.
  apply (loop_sound array prob fuel 0 (len array - 1) _ ltac:(lia) ltac:(lia) E).
Qed.

(** X4. On a nonempty table whose cumulative values are all above [prob],
    [bin_search] never returns. *)
Theorem bin_search_spins_below (array : list Bin) (prob : Q) (fuel : nat) :
  array <> [] ->
  (forall b, b ∈ array -> (prob < cumulative b)%Q) ->
  Gram.bin_search fuel array prob = None.
Proof.
  intros Hne Hall. unfold Gram.bin_search. apply loop_spins_below; [assumption|].
  unfold len. destruct array; [congruence | simpl; lia].
Qed.

Lemma bin_search_spins_below_witness :
  Gram.bin_search 100 [mkBin "a" (inject_Z 1)] 0 = None.
Proof.
  apply (bin_search_spins_below [mkBin "a" (inject_Z 1)] 0%Q 100).
  - discriminate.
  - intros b Hb. apply list_elem_of_singleton in Hb. subst b.
    unfold Qlt. simpl. lia.
Defined.

(** Each pass at least halves the distance between [lo] and [hi]. *)
Lemma loop_finds_fast (array : list Bin) (prob : Q) (t : nat) :
  nondecreasing array = true -> tie_free prob array = true ->
  stops_at array prob t ->
  forall passes lo hi,
  0 <= lo <= Z.of_nat t -> Z.of_nat t <= hi <= len array - 1 ->
  hi - lo < 2 ^ Z.of_nat passes ->
  Gram.loop (S passes) array prob lo hi = Some (Ok (Some (Z.of_nat t))).
Proof.
  intros Hs Htie [(bt & Hbt & Hle) Hnext].
  induction passes as [|passes IH]; intros lo hi Hlo Hhi Hfuel.
  - (* one pass: [lo = hi = t] *)
    change (2 ^ Z.of_nat 0) with 1 in Hfuel.
    assert (lo = Z.of_nat t) by lia. assert (hi = Z.of_nat t) by lia. subst lo hi.
    apply (loop_finds array prob t Hs Htie); [|lia|lia|lia].
    split; [exists bt; split; assumption | exact Hnext].
  - cbn [Gram.loop]. destruct (lo <=? hi) eqn:E; [| apply Z.leb_gt in E; lia].
    destruct (midpoint_bounds lo hi) as [Hmid Hstrict]; [lia|].
    pose proof (midpoint_double lo hi) as Hdouble.
    assert (Hpow : 2 ^ Z.of_nat (S passes) = 2 * 2 ^ Z.of_nat passes).
    { rewrite Nat2Z.inj_succ, Z.pow_succ_r by lia. reflexivity. }
    rewrite Hpow in Hfuel.
    set (mid := (lo + hi) / 2) in *.
    unfold Gram.body. fold mid.
    destruct (cumulative_at_in_range array mid) as (b & Hb & Hc); [lia|].
    rewrite Hc. unfold Gram.matches.
    destruct (Z.lt_trichotomy mid (Z.of_nat t)) as [Hlt|[Heq|Hgt]].
    + assert (Hbp : (cumulative b <= prob)%Q).
      { apply Qle_trans with (cumulative bt); [|assumption].
        apply (nondecreasing_lookup array Hs (t - Z.to_nat mid) (Z.to_nat mid));
          [assumption|].
        replace (Z.to_nat mid + (t - Z.to_nat mid))%nat with t by lia. assumption. }
      destruct (cumulative_at_in_range array (mid + 1)) as (b' & Hb' & Hc'); [lia|].
      assert (Hb'p : (cumulative b' <= prob)%Q).
      { apply Qle_trans with (cumulative bt); [|assumption].
        apply (nondecreasing_lookup array Hs (t - Z.to_nat (mid + 1)) (Z.to_nat (mid + 1)));
          [assumption|].
        replace (Z.to_nat (mid + 1) + (t - Z.to_nat (mid + 1)))%nat with t by lia.
        assumption. }
      apply Qle_bool_iff in Hbp as Ele. rewrite Ele.
      destruct (mid =? len array - 1) eqn:Elast; [apply Z.eqb_eq in Elast; lia|].
      rewrite Hc'. apply Qlt_bool_false in Hb'p as Enext. rewrite Enext.
      destruct (Qlt_bool (cumulative b) prob) eqn:Elt.
      * apply IH; lia.
      * exfalso. qprop.
        replace (Z.to_nat (mid + 1)) with (S (Z.to_nat mid)) in Hb' by lia.
        apply (tie_free_adjacent prob array Htie (Z.to_nat mid) b b' Hb Hb').
        -- apply Qle_antisym; assumption.
        -- apply Qle_antisym; [assumption|].
           apply Qle_trans with (cumulative b); [assumption|].
           apply (nondecreasing_adjacent array Hs (Z.to_nat mid)); assumption.
    + rewrite Heq in Hb. rewrite Nat2Z.id in Hb. rewrite Hbt in Hb. inversion Hb; subst b.
      apply Qle_bool_iff in Hle as Ele. rewrite Ele.
      destruct (mid =? len array - 1) eqn:Elast; [rewrite Heq; reflexivity|].
      apply Z.eqb_neq in Elast.
      destruct (cumulative_at_in_range array (mid + 1)) as (b' & Hb' & Hc'); [lia|].
      rewrite Hc'.
      replace (Z.to_nat (mid + 1)) with (S t) in Hb' by lia.
      specialize (Hnext b' Hb'). apply Qlt_bool_iff in Hnext. rewrite Hnext.
      rewrite Heq. reflexivity.
    + assert (Hpb : (prob < cumulative b)%Q).
      { destruct (lookup_lt_is_Some_2 array (S t)) as [b' Hb'].
        { apply lookup_lt_Some in Hb. lia. }
        apply Qlt_le_trans with (cumulative b'); [apply Hnext; assumption|].
        apply (nondecreasing_lookup array Hs (Z.to_nat mid - S t) (S t)); [assumption|].
        replace (S t + (Z.to_nat mid - S t))%nat with (Z.to_nat mid) by lia. assumption. }
      apply Qle_bool_false in Hpb as Ele. rewrite Ele.
      assert (Elt : Qlt_bool (cumulative b) prob = false).
      { apply Qlt_bool_false. apply Qlt_le_weak. assumption. }
      rewrite Elt. apply IH; lia.
Qed.

(** X5. On a nonempty table whose cumulative values never decrease, for a
    [prob] that is not below the first cumulative value and does not tie two
    consecutive entries, [bin_search] is done within [passes + 1] passes of
    its loop as soon as the table has at most [2 ^ passes] entries. *)
Theorem bin_search_logarithmic
    (array : list Bin) (prob : Q) (b0 : Bin) (passes : nat) :
  array !! 0%nat = Some b0 ->
  nondecreasing array = true ->
  tie_free prob array = true ->
  (cumulative b0 <= prob)%Q ->
  len array <= 2 ^ Z.of_nat passes ->
  exists i : nat,
    Gram.bin_search (S passes) array prob = Some (Ok (Some (Z.of_nat i))) /\
    stops_at array prob i.
Proof.
  intros H0 Hs Htie Hle Hsize.
  destruct (stop_exists prob array b0 H0 Hle) as [t Ht].
  exists t. split; [|exact Ht].
  assert (Hlt : (t < length array)%nat).
  { destruct Ht as [(bt & Hbt & _) _]. eapply lookup_lt_Some. exact Hbt. }
  unfold Gram.bin_search. apply loop_finds_fast; try assumption; unfold len in *; lia.
Qed.

Lemma bin_search_logarithmic_witness :
  exists i : nat,
    Gram.bin_search 3 abc (59 # 10) = Some (Ok (Some (Z.of_nat i))) /\
    stops_at abc (59 # 10) i.
Proof.
  apply (bin_search_logarithmic abc (59 # 10) (mkBin "a" (inject_Z 1)) 2).
  - reflexivity.
  - reflexivity.
  - reflexivity.
  - unfold Qle. simpl. lia.
  - vm_compute. discriminate.
Defined.

(** ** More on [Listogram] and [Dictogram] *)

Lemma Counter_merge (ws : list string) :
  Counter ws = merge_data_containing_ints [] (map (fun w => (w, 1)) ws).
Proof.
  unfold Counter, merge_data_containing_ints.
  generalize (@nil (string * Z)) as d0.
  induction ws as [|w ws IH]; intros d0; simpl; [reflexivity|]. apply IH.
Qed.

Lemma delta_sum_ones (w : string) (ws : list string) :
  delta_sum w (map (fun x => (x, 1)) ws) = occurrences w ws.
Proof.
  unfold occurrences, len. induction ws as [|x ws IH]; simpl; [reflexivity|].
  rewrite IH. rewrite filter_cons.
  destruct (String.eqb x w) eqn:E.
  - apply String.eqb_eq in E. subst x. rewrite decide_True by reflexivity.
    simpl. lia.
  - apply String.eqb_neq in E. rewrite decide_False by assumption. reflexivity.
Qed.

Lemma Counter_counts (w : string) (ws : list string) :
  dict_get (Counter ws) w 0 = occurrences w ws.
Proof.
  rewrite Counter_merge, merge_sums_per_item, delta_sum_ones. reflexivity.
Qed.

(** The rebuild test after two logged calls on a log that does not end in
    [add_count]. *)
Lemma last_call_not_add_count (b c : string) (d : FreqDist) (temp : dict)
    (logs : list string) :
  last logs <> Some "add_count"%string ->
  last_call_was_add_count (mkGram d temp (log_call c (log_call b logs))) = Ok false.
Proof.
  intros Hlast. destruct logs as [|x logs] using rev_ind.
  - reflexivity.
  - clear IHlogs. rewrite last_snoc in Hlast.
    destruct (log_call_suffix b logs [x]) as [f1 E1]; [unfold logs_size; simpl; lia|].
    rewrite E1. simpl.
    destruct (log_call_suffix c f1 [x; b]) as [f2 E2]; [unfold logs_size; simpl; lia|].
    rewrite E2. simpl.
    unfold last_call_was_add_count. cbn [_logs_].
    assert (Hlen : len (f2 ++ [x; b; c]) = len f2 + 3).
    { unfold len. rewrite length_app. simpl. lia. }
    rewrite Hlen.
    assert (E3 : (2 <? len f2 + 3) = true) by (apply Z.ltb_lt; unfold len; lia).
    rewrite E3. unfold getitem. rewrite Hlen.
    replace (-1 - 2 <? 0) with true by reflexivity.
    assert (E4 : (len f2 + 3 + (-1 - 2) <? 0) = false) by (apply Z.ltb_ge; unfold len; lia).
    rewrite E4.
    replace (Z.to_nat (len f2 + 3 + (-1 - 2))) with (length f2 + 0)%nat
      by (unfold len; lia).
    rewrite lookup_app_r by lia.
    replace (length f2 + 0 - length f2)%nat with 0%nat by lia.
    cbn. f_equal. apply String.eqb_neq. congruence.
Qed.

(** X6. A read that does not come right after an [add_count] rebuilds
    nothing: [frequency], [__contains__] and [items] leave the distribution
    and the buffer as they are and answer from the mapping as it stands,
    whatever the buffer holds. *)
Theorem read_without_add_count_keeps_dist (self : gram) (w : string) :
  last (_logs_ self) <> Some "add_count"%string ->
  (dist (Listogram.frequency w self).1 = dist self /\
   temp_word_to_freq (Listogram.frequency w self).1 = temp_word_to_freq self /\
   (Listogram.frequency w self).2 = Ok (dict_get (word_to_freq (dist self)) w 0)) /\
  (dist (Listogram.__contains__ w self).1 = dist self /\
   temp_word_to_freq (Listogram.__contains__ w self).1 = temp_word_to_freq self /\
   (Listogram.__contains__ w self).2
   = Ok (dict_contains (word_to_freq (dist self)) w)) /\
  (dist (Dictogram.frequency w self).1 = dist self /\
   temp_word_to_freq (Dictogram.frequency w self).1 = temp_word_to_freq self /\
   (Dictogram.frequency w self).2 = Ok (dict_get (word_to_freq (dist self)) w 0)) /\
  (dist (Dictogram.items self).1 = dist self /\
   temp_word_to_freq (Dictogram.items self).1 = temp_word_to_freq self /\
   (Dictogram.items self).2 = Ok (word_to_freq (dist self))).
Proof.
  intros Hlast.
  unfold Listogram.frequency, Listogram.__contains__, Dictogram.frequency,
    Dictogram.items, Listogram.rebuild_with_latent_wordcounts,
    Dictogram.rebuild_with_latent_wordcounts.
  method. rewrite !last_call_not_add_count by assumption.
  repeat split; reflexivity.
Qed.

Lemma read_without_add_count_keeps_dist_witness :
  (Listogram.frequency "x"
     (Listogram.frequency "x"
        (Listogram.add_count "x" 1 (Listogram.__init__ (Some ["x"%string]))).1).1).2
  = Ok 2.
Proof.
  pose proof (read_without_add_count_keeps_dist
                (Listogram.frequency "x"
                   (Listogram.add_count "x" 1
                      (Listogram.__init__ (Some ["x"%string]))).1).1
                "x"%string) as H.
  destruct H as ((_ & _ & H) & _); [vm_compute; discriminate | exact H].
Defined.

(** X7. With no [add_count] since it was built, a [Listogram] or [Dictogram]
    reports for every word the number of its occurrences in the word list,
    0 for a word that does not occur; without a word list every word has 0. *)
Theorem fresh_frequency_counts_occurrences (ws : list string) (w : string) :
  (Listogram.frequency w (Listogram.__init__ (Some ws))).2 = Ok (occurrences w ws) /\
  (Dictogram.frequency w (Dictogram.__init__ (Some ws))).2 = Ok (occurrences w ws) /\
  (Listogram.frequency w (Listogram.__init__ None)).2 = Ok 0 /\
  (Dictogram.frequency w (Dictogram.__init__ None)).2 = Ok 0.
Proof.
  assert (Hnil : last (@nil string) <> Some "add_count"%string) by discriminate.
  split; [|split; [|split; reflexivity]].
  - unfold Listogram.frequency, Listogram.rebuild_with_latent_wordcounts,
      Listogram.__init__.
    method. rewrite last_call_not_add_count by assumption.
    cbn. rewrite Counter_counts. reflexivity.
  - unfold Dictogram.frequency, Dictogram.rebuild_with_latent_wordcounts,
      Dictogram.__init__.
    method. rewrite last_call_not_add_count by assumption.
    cbn. rewrite Counter_counts. reflexivity.
Qed.

(** X8. From a new [Listogram] or [Dictogram], a nonempty burst of
    [add_count] calls followed by [frequency(w)] gives the occurrences of [w]
    in the word list plus the counts added for [w]. *)
Theorem fresh_burst_frequency (ws : list string) (calls : list (string * Z)) (w : string) :
  calls <> [] ->
  (Listogram.frequency w (Listogram.add_counts calls (Listogram.__init__ (Some ws)))).2
  = Ok (occurrences w ws + delta_sum w calls) /\
  (Dictogram.frequency w (Dictogram.add_counts calls (Dictogram.__init__ (Some ws)))).2
  = Ok (occurrences w ws + delta_sum w calls).
Proof.
  intros Hne. split.
  - destruct (Listogram_add_counts_state calls (Listogram.__init__ (Some ws)) Hne)
      as [logs E].
    rewrite E, Listogram_frequency_after_add_count. cbn.
    rewrite merge_sums_per_item, Counter_counts. reflexivity.
  - destruct (Dictogram_add_counts_state calls (Dictogram.__init__ (Some ws)) Hne)
      as [logs E].
    rewrite E, Dictogram_frequency_after_add_count. cbn.
    rewrite merge_sums_per_item, delta_sum_merge, Counter_counts. simpl. f_equal; lia.
Qed.

Lemma fresh_burst_frequency_witness :
  (Listogram.frequency "b"
     (Listogram.add_counts [("b"%string, 2); ("a"%string, 1); ("b"%string, 3)]
        (Listogram.__init__ (Some ["a"%string; "b"%string; "a"%string])))).2
  = Ok 6.
Proof.
  apply (proj1 (fresh_burst_frequency ["a"%string; "b"%string; "a"%string]
                  [("b"%string, 2); ("a"%string, 1); ("b"%string, 3)] "b"%string
                  ltac:(discriminate))).
Defined.

(** *** The two buffers lead to the same mapping *)

Lemma dict_add_twice (d0 : dict) (k : string) (c c' : Z) :
  dict_add (dict_add d0 k c) k c' = dict_add d0 k (c + c').
Proof.
  induction d0 as [|[k0 v0] rest IH]; simpl.
  - rewrite String.eqb_refl. reflexivity.
  - destruct (String.eqb k0 k) eqn:E; simpl; rewrite E.
    + f_equal. f_equal. lia.
    + f_equal. exact IH.
Qed.

Lemma dict_contains_add (d0 : dict) (k k' : string) (c : Z) :
  dict_contains d0 k = true -> dict_contains (dict_add d0 k' c) k = true.
Proof.
  unfold dict_contains. induction d0 as [|[k0 v0] rest IH]; simpl; [discriminate|].
  destruct (String.eqb k0 k') eqn:E'; simpl; destruct (String.eqb k0 k); auto.
Qed.

Lemma dict_contains_add_same (d0 : dict) (k : string) (c : Z) :
  dict_contains (dict_add d0 k c) k = true.
Proof.
  unfold dict_contains. induction d0 as [|[k0 v0] rest IH]; simpl.
  - rewrite String.eqb_refl. reflexivity.
  - destruct (String.eqb k0 k) eqn:E; simpl; rewrite E; [reflexivity | exact IH].
Qed.

(** Adding to a key that is there is done in place, so it can be moved past
    any other addition. *)
Lemma dict_add_swap (d0 : dict) (k k' : string) (c c' : Z) :
  dict_contains d0 k = true ->
  dict_add (dict_add d0 k c) k' c' = dict_add (dict_add d0 k' c') k c.
Proof.
  unfold dict_contains. induction d0 as [|[k0 v0] rest IH]; simpl; [discriminate|].
  destruct (String.eqb k0 k) eqn:E; destruct (String.eqb k0 k') eqn:E'; simpl;
    rewrite ?E, ?E'; intros Hin.
  - f_equal. f_equal. lia.
  - reflexivity.
  - reflexivity.
  - f_equal. apply IH. exact Hin.
Qed.

Lemma merge_add_present (d0 calls : dict) (k : string) (c : Z) :
  dict_contains d0 k = true ->
  merge_data_containing_ints (dict_add d0 k c) calls
  = dict_add (merge_data_containing_ints d0 calls) k c.
Proof.
  unfold merge_data_containing_ints. revert d0.
  induction calls as [|[k' c'] rest IH]; intros d0 Hin; simpl; [reflexivity|].
  rewrite dict_add_swap by assumption.
  apply IH. apply dict_contains_add. assumption.
Qed.

Lemma merge_add_buffer (base buffer : dict) (k : string) (c : Z) :
  merge_data_containing_ints base (dict_add buffer k c)
  = dict_add (merge_data_containing_ints base buffer) k c.
Proof.
  revert base. induction buffer as [|[k0 v0] rest IH]; intros base; [reflexivity|].
  cbn [dict_add]. destruct (String.eqb k0 k) eqn:E.
  - apply String.eqb_eq in E. subst k0.
    unfold merge_data_containing_ints. cbn [foldl fst snd].
    rewrite <- dict_add_twice.
    apply (merge_add_present (dict_add base k v0) rest k c).
    apply dict_contains_add_same.
  - unfold merge_data_containing_ints in *. cbn [foldl fst snd]. apply IH.
Qed.

Lemma merge_merge (base buffer calls : dict) :
  merge_data_containing_ints base (merge_data_containing_ints buffer calls)
  = merge_data_containing_ints (merge_data_containing_ints base buffer) calls.
Proof.
  revert buffer. induction calls as [|[k c] rest IH]; intros buffer; [reflexivity|].
  change (merge_data_containing_ints buffer ((k, c) :: rest))
    with (merge_data_containing_ints (dict_add buffer k c) rest).
  rewrite IH, merge_add_buffer. reflexivity.
Qed.

Lemma merge_app (base calls1 calls2 : dict) :
  merge_data_containing_ints base (calls1 ++ calls2)
  = merge_data_containing_ints (merge_data_containing_ints base calls1) calls2.
Proof. unfold merge_data_containing_ints. apply foldl_app. Qed.

(** X9. The list buffer of [Listogram] and the dictionary buffer of
    [Dictogram] come to the same: from one and the same state, the same
    nonempty burst of [add_count] calls followed by [frequency] leaves both
    with the same distribution (mapping, order and cumulative table) and the
    same answer. *)
Theorem Listogram_Dictogram_agree (self : gram) (calls : list (string * Z)) (w : string) :
  calls <> [] ->
  dist (Listogram.frequency w (Listogram.add_counts calls self)).1
  = dist (Dictogram.frequency w (Dictogram.add_counts calls self)).1 /\
  (Listogram.frequency w (Listogram.add_counts calls self)).2
  = (Dictogram.frequency w (Dictogram.add_counts calls self)).2.
Proof.
  intros Hne.
  destruct (Listogram_add_counts_state calls self Hne) as [logsl El].
  destruct (Dictogram_add_counts_state calls self Hne) as [logsd Ed].
  rewrite El, Ed, Listogram_frequency_after_add_count, Dictogram_frequency_after_add_count.
  cbn [fst snd dist]. rewrite merge_app, merge_merge. split; reflexivity.
Qed.

Lemma Listogram_Dictogram_agree_witness :
  let self := Listogram.__init__ (Some ["a"%string; "b"%string]) in
  let calls := [("c"%string, 2); ("a"%string, 1); ("c"%string, 3)] in
  dist (Listogram.frequency "c" (Listogram.add_counts calls self)).1
  = dist (Dictogram.frequency "c" (Dictogram.add_counts calls self)).1 /\
  (Listogram.frequency "c" (Listogram.add_counts calls self)).2
  = (Dictogram.frequency "c" (Dictogram.add_counts calls self)).2.
Proof.
  intros self calls.
  apply (Listogram_Dictogram_agree self calls "c"%string). discriminate.
Defined.

(** ** [Histogram] built from text *)

Lemma dict_lookup_add_key (d0 : dict) (k w : string) (c : Z) :
  dict_lookup (dict_add d0 k c) w
  = if String.eqb k w then Some (dict_get d0 w 0 + c) else dict_lookup d0 w.
Proof.
  unfold dict_get. induction d0 as [|[k0 v0] rest IH]; simpl.
  - destruct (String.eqb k w); reflexivity.
  - destruct (String.eqb k0 k) eqn:Ek; simpl.
    + apply String.eqb_eq in Ek. subst k0. destruct (String.eqb k w); reflexivity.
    + destruct (String.eqb k0 w) eqn:Ew; [|exact IH].
      apply String.eqb_eq in Ew. subst k0.
      rewrite String.eqb_sym in Ek. rewrite Ek. reflexivity.
Qed.

Lemma filter_absent (w : string) (ws : list string) :
  w ∉ ws -> filter (fun x => x = w) ws = [].
Proof.
  induction ws as [|x ws IH]; intros Hnin; [reflexivity|].
  apply not_elem_of_cons in Hnin as [Hne Hnin].
  rewrite filter_cons, decide_False by congruence. apply IH. assumption.
Qed.

Lemma dict_lookup_count (ws : list string) (w : string) : forall d0 : dict,
  dict_lookup (foldl (fun d x => dict_add d x 1) d0 ws) w
  = if bool_decide (w ∈ ws) then Some (dict_get d0 w 0 + occurrences w ws)
    else dict_lookup d0 w.
Proof.
  unfold occurrences, len.
  induction ws as [|x ws IH]; intros d0; simpl; [reflexivity|].
  rewrite IH, filter_cons, dict_lookup_add_key, dict_lookup_add.
  destruct (String.eqb x w) eqn:E.
  - apply String.eqb_eq in E. subst x.
    rewrite decide_True by reflexivity.
    rewrite (bool_decide_eq_true_2 (w ∈ w :: ws)) by (apply elem_of_cons; left; reflexivity).
    destruct (bool_decide (w ∈ ws)) eqn:Ein; simpl; f_equal; [lia|].
    apply bool_decide_eq_false_1 in Ein. rewrite (filter_absent w ws Ein). simpl. lia.
  - apply String.eqb_neq in E. rewrite decide_False by assumption.
    destruct (bool_decide (w ∈ ws)) eqn:Ein.
    + apply bool_decide_eq_true_1 in Ein.
      rewrite (bool_decide_eq_true_2 (w ∈ x :: ws)) by (apply elem_of_cons; right; assumption).
      f_equal. lia.
    + apply bool_decide_eq_false_1 in Ein.
      rewrite (bool_decide_eq_false_2 (w ∈ x :: ws)); [reflexivity|].
      intros Hin. apply elem_of_cons in Hin as [->|Hin]; [congruence | contradiction].
Qed.

Lemma as_word_to_freq_Counter (line_as_words : string -> list string)
    (lines : list string) :
  Histogram.as_word_to_freq line_as_words (Some lines)
  = Ok (Counter (concat (map line_as_words lines))).
Proof.
  unfold Histogram.as_word_to_freq, Counter. f_equal.
  generalize (@nil (string * Z)) as d0.
  induction lines as [|line lines IH]; intros d0; simpl; [reflexivity|].
  rewrite foldl_app. apply IH.
Qed.

(** X10. A [Histogram] given text and no mapping (or an empty one, which
    counts as none) holds for each word the number of times the lines yield
    it: [frequency] returns that number for a word that occurs and raises
    [KeyError] for one that does not. Given neither text nor mapping, the
    constructor raises [TypeError]. *)
Theorem Histogram_counts_source_text
    (line_as_words : string -> list string) (lines : list string) (w : string) :
  let ws := concat (map line_as_words lines) in
  exists self : FreqDist,
    Histogram.__init__ line_as_words (Some lines) None = Ok self /\
    Histogram.__init__ line_as_words (Some lines) (Some []) = Ok self /\
    Histogram.frequency self w
    = (if bool_decide (w ∈ ws) then Ok (occurrences w ws) else Raise KeyError) /\
    Histogram.__init__ line_as_words None None = Raise TypeError /\
    Histogram.__init__ line_as_words None (Some []) = Raise TypeError.
Proof.
  intros ws. exists (FreqDist_init (Counter ws)).
  unfold Histogram.__init__. rewrite as_word_to_freq_Counter. fold ws.
  repeat split.
  unfold Histogram.frequency, dict_getitem, Counter. cbn [word_to_freq FreqDist_init].
  rewrite dict_lookup_count.
  destruct (bool_decide (w ∈ ws)); reflexivity.
Qed.

(** ** More on the hash table *)

Section Listing.
Context {K V : Type} `{EqDecision K}.
Implicit Types (self : @HashTable.t K V) (key : K) (value : V).

Lemma elem_of_map {A B} (f : A -> B) (l : list A) (y : B) :
  y ∈ map f l <-> exists x, y = f x /\ x ∈ l.
Proof.
  rewrite list_elem_of_In, in_map_iff. split; intros (x & Hx & Hin); exists x;
    (split; [congruence|]); apply list_elem_of_In; assumption.
Qed.

Lemma elem_of_concat {A} (ls : list (list A)) (x : A) :
  x ∈ concat ls <-> exists i l, ls !! i = Some l /\ x ∈ l.
Proof.
  induction ls as [|l0 ls IH]; simpl.
  - split; [intros Hin; inversion Hin | intros (i & l & Hl & _); discriminate].
  - rewrite elem_of_app, IH. split.
    + intros [Hin|(i & l & Hl & Hin)].
      * exists 0%nat, l0. split; [reflexivity | assumption].
      * exists (S i), l. split; assumption.
    + intros (i & l & Hl & Hin). destruct i as [|i].
      * left. cbn in Hl. inversion Hl; subst. assumption.
      * right. exists i, l. split; assumption.
Qed.

Lemma items_concat self : HashTable.items self = concat (HashTable.buckets self).
Proof.
  unfold HashTable.items, LinkedList.items.
  assert (Hacc : forall (bs : list (list (K * V))) acc,
            foldl (fun all_items bucket => all_items ++ bucket) acc bs
            = acc ++ concat bs).
  { induction bs as [|b bs IH]; intros acc; simpl.
    - rewrite app_nil_r. reflexivity.
    - rewrite IH, <- (assoc_L (++)). reflexivity. }
  apply Hacc.
Qed.

Lemma keys_concat self :
  HashTable.keys self = map fst (concat (HashTable.buckets self)).
Proof.
  unfold HashTable.keys, LinkedList.items.
  assert (Hin : forall (b : list (K * V)) (acc : list K),
            foldl (fun all_keys' (item : K * V) => all_keys' ++ [item.1]) acc b
            = acc ++ map fst b).
  { induction b as [|item b IHb]; intros acc; simpl.
    - rewrite app_nil_r. reflexivity.
    - rewrite IHb, <- (assoc_L (++)). reflexivity. }
  assert (Hacc : forall (bs : list (list (K * V))) (acc : list K),
            foldl (fun all_keys bucket =>
                     foldl (fun all_keys' (item : K * V) => all_keys' ++ [item.1])
                           all_keys bucket) acc bs
            = acc ++ map fst (concat bs)).
  { induction bs as [|b bs IH]; intros acc; simpl.
    - rewrite app_nil_r. reflexivity.
    - rewrite IH, Hin, map_app, (assoc_L (++)). reflexivity. }
  apply Hacc.
Qed.

Lemma keys_items_length self :
  HashTable.keys self = map fst (HashTable.items self) /\
  HashTable.length self = len (HashTable.items self).
Proof.
  rewrite keys_concat, items_concat. split; [reflexivity|].
  unfold HashTable.length, LinkedList.length, len.
  induction (HashTable.buckets self) as [|b bs IH]; simpl; [reflexivity|].
  rewrite length_app, IH. lia.
Qed.

(** X11. In every state [keys()] and [values()] are the two columns of
    [items()], in the same order, and [length()] is the number of items. *)
Theorem keys_values_are_items_columns self :
  HashTable.keys self = map fst (HashTable.items self) /\
  HashTable.values self = map snd (HashTable.items self) /\
  HashTable.length self = len (HashTable.items self).
Proof.
  rewrite keys_concat, items_concat. split; [reflexivity|].
  unfold HashTable.values, HashTable.length, LinkedList.items, LinkedList.length, len.
  induction (HashTable.buckets self) as [|b bs [IH1 IH2]]; simpl; [split; reflexivity|].
  rewrite map_app, length_app, IH1, IH2. split; [reflexivity | lia].
Qed.

Lemma find_present key value (ll : list (K * V)) :
  NoDup (map fst ll) -> (key, value) ∈ ll ->
  LinkedList.find (HashTable.has_key key) ll = Some (key, value).
Proof.
  unfold LinkedList.find. induction ll as [|x rest IH]; intros Hnd Hin; [inversion Hin|].
  simpl in Hnd. apply NoDup_cons in Hnd as [Hx Hnd]. simpl.
  apply elem_of_cons in Hin as [<-|Hin].
  - assert (E : HashTable.has_key key (key, value) = true)
      by (apply has_key_true; reflexivity).
    rewrite E. reflexivity.
  - destruct (HashTable.has_key key x) eqn:E.
    + apply has_key_true in E. exfalso. apply Hx.
      apply elem_of_map. exists (key, value). split; [exact E | assumption].
    + apply IH; assumption.
Qed.

Lemma find_Some_elem key (ll : list (K * V)) (item : K * V) :
  LinkedList.find (HashTable.has_key key) ll = Some item ->
  item ∈ ll /\ item.1 = key.
Proof.
  unfold LinkedList.find. intros Hf. apply find_some in Hf as [Hin Hk].
  split; [apply list_elem_of_In; assumption | apply has_key_true; assumption].
Qed.

Lemma elem_of_upsert key value (ll : list (K * V)) (item : K * V) :
  item ∈ upsert key value ll -> item = (key, value) \/ item ∈ ll.
Proof.
  unfold upsert.
  destruct (LinkedList.replace_first _ _ ll) as [ll'|] eqn:E.
  - revert ll' E. induction ll as [|x rest IH]; intros ll' E; simpl in E; [discriminate|].
    destruct (HashTable.has_key key x).
    + inversion E; subst ll'. intros Hin.
      apply elem_of_cons in Hin as [->|Hin]; [left; reflexivity|].
      right. apply elem_of_cons. right. assumption.
    + destruct (LinkedList.replace_first _ _ rest) as [rest'|]; simpl in E; [|discriminate].
      inversion E; subst ll'. intros Hin.
      apply elem_of_cons in Hin as [->|Hin].
      * right. apply elem_of_cons. left. reflexivity.
      * destruct (IH rest' eq_refl Hin) as [->|Hin']; [left; reflexivity|].
        right. apply elem_of_cons. right. assumption.
  - intros Hin. apply elem_of_app in Hin as [Hin|Hin]; [right; assumption|].
    apply list_elem_of_singleton in Hin. left. assumption.
Qed.

Lemma elem_of_remove_first key (ll ll' : list (K * V)) (item : K * V) :
  LinkedList.remove_first (HashTable.has_key key) ll = Some ll' ->
  item ∈ ll' -> item ∈ ll.
Proof.
  revert ll'. induction ll as [|x rest IH]; intros ll'; simpl; [discriminate|].
  destruct (HashTable.has_key key x).
  - intros E Hin. inversion E; subst ll'. apply elem_of_cons. right. assumption.
  - destruct (LinkedList.remove_first _ rest) as [rest'|]; simpl; [|discriminate].
    intros E Hin. inversion E; subst ll'.
    apply elem_of_cons in Hin as [->|Hin]; apply elem_of_cons; [left; reflexivity|].
    right. apply (IH rest' eq_refl). assumption.
Qed.
End Listing.

Section HashTableMore.
Context {K V : Type} `{EqDecision K}.
Variable hash : K -> Z.
Implicit Types (self : @HashTable.t K V) (key : K) (value : V).

Lemma buckets_nonempty self :
  HashTable.buckets self <> [] -> 0 < len (HashTable.buckets self).
Proof.
  intros Hne. destruct (no_buckets_or_some self) as [E|Hlen]; [congruence | assumption].
Qed.

Lemma set_keeps_buckets self key value :
  len (HashTable.buckets (HashTable.set hash key value self).1)
  = len (HashTable.buckets self).
Proof.
  apply (after_keeps_buckets hash [HashTable.Set_ key value] self).
Qed.

Lemma delete_keeps_buckets self key :
  len (HashTable.buckets (HashTable.delete hash key self).1)
  = len (HashTable.buckets self).
Proof.
  apply (after_keeps_buckets hash [HashTable.Delete key] self).
Qed.

(** X12. On a table with buckets, in whatever state, [get] after
    [set(key, value)] returns [value] for [key] and for every other key what
    it returned before. *)
Theorem get_after_set self key value key' :
  HashTable.buckets self <> [] ->
  (HashTable.get hash key' (HashTable.set hash key value self).1).2
  = if decide (key = key') then Ok value else (HashTable.get hash key' self).2.
Proof.
  intros Hne. apply buckets_nonempty in Hne as Hlen.
  rewrite !get_value_of by (rewrite ?set_keeps_buckets; assumption).
  cbn [snd]. rewrite value_of_set by assumption.
  destruct (decide (key = key')); reflexivity.
Qed.

(** X13. On a table with buckets none of which holds a key twice, [get]
    after [delete(key)] raises [KeyError] for [key] and returns for every
    other key what it returned before. *)
Theorem get_after_delete self key key' :
  HashTable.buckets self <> [] -> distinct_keys self ->
  (HashTable.get hash key' (HashTable.delete hash key self).1).2
  = if decide (key = key') then Raise KeyError else (HashTable.get hash key' self).2.
Proof.
  intros Hne Hd. apply buckets_nonempty in Hne as Hlen.
  rewrite !get_value_of by (rewrite ?delete_keeps_buckets; assumption).
  cbn [snd]. rewrite value_of_delete by assumption.
  destruct (decide (key = key')); reflexivity.
Qed.

Lemma upsert_cons key value (x : K * V) (rest : list (K * V)) :
  upsert key value (x :: rest)
  = if HashTable.has_key key x then (key, value) :: rest
    else x :: upsert key value rest.
Proof.
  unfold upsert. simpl. destruct (HashTable.has_key key x); [reflexivity|].
  destruct (LinkedList.replace_first _ _ rest); reflexivity.
Qed.

Lemma upsert_upsert key v1 v2 (ll : list (K * V)) :
  upsert key v2 (upsert key v1 ll) = upsert key v2 ll.
Proof.
  assert (Hk : forall v : V, HashTable.has_key key (key, v) = true).
  { intros v. apply has_key_true. reflexivity. }
  induction ll as [|x rest IH].
  - change (upsert key v1 []) with [(key, v1)]. rewrite upsert_cons, Hk. reflexivity.
  - rewrite !(upsert_cons key _ x rest). destruct (HashTable.has_key key x) eqn:E.
    + rewrite upsert_cons, Hk. reflexivity.
    + rewrite upsert_cons, E, IH. reflexivity.
Qed.

Lemma set_set_state self key v1 :
  0 < len (HashTable.buckets self) ->
  exists ll,
    HashTable.buckets self !! slot hash self key = Some ll /\
    HashTable.set hash key v1 self
    = (HashTable.mk (<[slot hash self key := upsert key v1 ll]> (HashTable.buckets self))
         (HashTable.table_size self + - LinkedList.length ll
          + LinkedList.length (upsert key v1 ll))
         (HashTable.load_factor self),
       Ok tt).
Proof.
  intros Hlen. destruct (slot_in_range hash self key Hlen) as (ll & Hl & _).
  exists ll. split; [assumption|]. apply set_state; assumption.
Qed.

(** X14. On a table with buckets, a [set] of a key wipes out the [set] of
    the same key just before it: the table ends up as if only the second had
    been made. *)
Theorem set_overwrites self key v1 v2 :
  HashTable.buckets self <> [] ->
  HashTable.set hash key v2 (HashTable.set hash key v1 self).1
  = HashTable.set hash key v2 self.
Proof.
  intros Hne. apply buckets_nonempty in Hne as Hlen.
  destruct (set_set_state self key v1 Hlen) as (ll & Hl & E1).
  rewrite E1. cbn [fst].
  pose proof (lookup_lt_Some _ _ _ Hl) as Hi.
  rewrite (set_state hash _ key v2 (upsert key v1 ll)).
  - rewrite (set_state hash self key v2 ll Hlen Hl).
    rewrite slot_insert. cbn [HashTable.buckets HashTable.table_size HashTable.load_factor].
    rewrite list_insert_insert_eq, upsert_upsert. f_equal. f_equal. lia.
  - unfold len in *. cbn [HashTable.buckets]. rewrite length_insert. assumption.
  - rewrite slot_insert. cbn [HashTable.buckets].
    apply list_lookup_insert_eq. assumption.
Qed.

Lemma remove_first_appended key value (ll : list (K * V)) :
  LinkedList.find (HashTable.has_key key) ll = None ->
  LinkedList.remove_first (HashTable.has_key key) (ll ++ [(key, value)]) = Some ll.
Proof.
  unfold LinkedList.find. induction ll as [|x rest IH]; simpl.
  - intros _.
    assert (E : HashTable.has_key key (key, value) = true)
      by (apply has_key_true; reflexivity).
    rewrite E. reflexivity.
  - destruct (HashTable.has_key key x); [discriminate|].
    intros Hf. rewrite (IH Hf). reflexivity.
Qed.

(** X15. On a table with buckets that does not contain [key], [set(key,
    value)] followed by [delete(key)] succeeds and gives back the very table
    it started from, buckets and [table_size]. *)
Theorem set_then_delete_restores self key value :
  HashTable.buckets self <> [] ->
  HashTable.contains hash key self = false ->
  HashTable.delete hash key (HashTable.set hash key value self).1 = (self, Ok tt).
Proof.
  intros Hne Hc. apply buckets_nonempty in Hne as Hlen.
  destruct (set_set_state self key value Hlen) as (ll & Hl & E1).
  rewrite E1. cbn [fst].
  pose proof (lookup_lt_Some _ _ _ Hl) as Hi.
  rewrite (contains_find hash self key ll Hlen Hl) in Hc.
  destruct (LinkedList.find (HashTable.has_key key) ll) eqn:Ef; [discriminate|].
  assert (Eu : upsert key value ll = ll ++ [(key, value)]).
  { unfold upsert. apply (replace_first_find key value) in Ef. rewrite Ef. reflexivity. }
  rewrite (delete_state hash _ key (upsert key value ll)).
  - rewrite Eu, (remove_first_appended key value ll Ef).
    rewrite slot_insert. cbn [HashTable.buckets HashTable.table_size HashTable.load_factor].
    rewrite list_insert_insert_eq, (list_insert_id _ _ _ Hl).
    destruct self as [bs ts lf]. cbn [HashTable.buckets HashTable.table_size HashTable.load_factor].
    f_equal. f_equal. unfold LinkedList.length, len. rewrite length_app. simpl. lia.
  - unfold len in *. cbn [HashTable.buckets]. rewrite length_insert. assumption.
  - rewrite slot_insert. cbn [HashTable.buckets].
    apply list_lookup_insert_eq. assumption.
Qed.

(** X16. [HashTable(init_size)] with [init_size <= 0] has no bucket: [get],
    [set] and [delete] all raise [ZeroDivisionError] and leave the table as
    it is, [contains] answers [False], and the table stays empty. *)
Theorem no_buckets_every_call_raises (init_size : Z) key value :
  init_size <= 0 ->
  let self := @HashTable.__init__ K V init_size in
  HashTable.get hash key self = (self, Raise ZeroDivisionError) /\
  HashTable.set hash key value self = (self, Raise ZeroDivisionError) /\
  HashTable.delete hash key self = (self, Raise ZeroDivisionError) /\
  HashTable.contains hash key self = false /\
  HashTable.length self = 0 /\ HashTable.items self = [].
Proof.
  intros Hsize self.
  assert (E : HashTable.buckets self = []).
  { unfold self, HashTable.__init__. cbn [HashTable.buckets].
    replace (Z.to_nat init_size) with 0%nat by lia. reflexivity. }
  assert (Hget : HashTable.get hash key self = (self, Raise ZeroDivisionError)).
  { unfold HashTable.get, HashTable._bucket_index, bind, get_self, raise.
    rewrite E. reflexivity. }
  split; [exact Hget|].
  split; [apply (apply_no_buckets hash self (HashTable.Set_ key value) E)|].
  split; [apply (apply_no_buckets hash self (HashTable.Delete key) E)|].
  split; [unfold HashTable.contains; rewrite Hget; reflexivity|].
  rewrite items_concat. unfold HashTable.length. rewrite E. split; reflexivity.
Qed.

(** *** What the listing methods show of a table built by calls *)

Lemma homed_apply self (o : HashTable.op) :
  0 < len (HashTable.buckets self) -> homed hash self ->
  homed hash (HashTable.apply hash o self).1.
Proof.
  intros Hlen Hh. destruct o as [key value|key]; cbn [HashTable.apply];
    destruct (slot_in_range hash self key Hlen) as (ll & Hl & _).
  - rewrite (set_state hash self key value ll Hlen Hl). cbn [fst].
    intros i l item Hi Hin. rewrite slot_insert. cbn [HashTable.buckets] in Hi.
    destruct (decide (slot hash self key = i)) as [<-|Hne].
    + rewrite list_lookup_insert_eq in Hi by (eapply lookup_lt_Some; exact Hl).
      inversion Hi; subst l.
      apply elem_of_upsert in Hin as [->|Hin]; [reflexivity|].
      apply (Hh _ ll); assumption.
    + rewrite list_lookup_insert_ne in Hi by assumption.
      apply (Hh _ l); assumption.
  - rewrite (delete_state hash self key ll Hlen Hl).
    destruct (LinkedList.remove_first (HashTable.has_key key) ll) as [ll'|] eqn:Er;
      cbn [fst]; [|assumption].
    intros i l item Hi Hin. rewrite slot_insert. cbn [HashTable.buckets] in Hi.
    destruct (decide (slot hash self key = i)) as [<-|Hne].
    + rewrite list_lookup_insert_eq in Hi by (eapply lookup_lt_Some; exact Hl).
      inversion Hi; subst l.
      apply (Hh _ ll); [assumption|].
      apply (elem_of_remove_first key ll ll' item Er Hin).
    + rewrite list_lookup_insert_ne in Hi by assumption.
      apply (Hh _ l); assumption.
Qed.

Lemma after_invariants (ops : list HashTable.op) : forall self,
  0 < len (HashTable.buckets self) -> distinct_keys self -> homed hash self ->
  0 < len (HashTable.buckets (HashTable.after hash ops self)) /\
  distinct_keys (HashTable.after hash ops self) /\
  homed hash (HashTable.after hash ops self).
Proof.
  induction ops as [|o ops IH]; intros self Hlen Hd Hh; [repeat split; assumption|].
  change (HashTable.after hash (o :: ops) self)
    with (HashTable.after hash ops (HashTable.apply hash o self).1).
  destruct (apply_preserves hash self o Hlen Hd) as [Hlen' Hd'].
  apply IH; [assumption | assumption | apply homed_apply; assumption].
Qed.

Lemma init_invariants (init_size : Z) (ops : list HashTable.op) :
  0 < init_size ->
  let self := HashTable.after hash ops (@HashTable.__init__ K V init_size) in
  0 < len (HashTable.buckets self) /\ distinct_keys self /\ homed hash self.
Proof.
  intros Hsize. apply after_invariants.
  - rewrite init_buckets. lia.
  - apply init_distinct_keys.
  - intros i ll item Hi Hin. unfold HashTable.__init__ in Hi.
    cbn [HashTable.buckets] in Hi. apply lookup_replicate in Hi as [-> _].
    inversion Hin.
Qed.

Lemma init_length (init_size : Z) :
  HashTable.table_size (@HashTable.__init__ K V init_size)
  = HashTable.length (@HashTable.__init__ K V init_size).
Proof.
  unfold HashTable.__init__, HashTable.length.
  cbn [HashTable.buckets HashTable.table_size].
  induction (Z.to_nat init_size) as [|n IH]; simpl; [reflexivity|].
  rewrite <- IH. reflexivity.
Qed.

Lemma NoDup_concat_keys (bs : list (list (K * V))) :
  (forall i ll, bs !! i = Some ll -> NoDup (map fst ll)) ->
  (forall i j li lj x y, bs !! i = Some li -> bs !! j = Some lj ->
     x ∈ li -> y ∈ lj -> x.1 = y.1 -> i = j) ->
  NoDup (map fst (concat bs)).
Proof.
  induction bs as [|b bs IH]; intros Hnd Hapart; simpl; [apply NoDup_nil_2|].
  rewrite map_app. apply NoDup_app. split; [apply (Hnd 0%nat); reflexivity|]. split.
  - intros k Hk Hk'.
    apply elem_of_map in Hk as (x & -> & Hx).
    apply elem_of_map in Hk' as (y & Hxy & Hy).
    apply elem_of_concat in Hy as (j & lj & Hj & Hy).
    pose proof (Hapart 0%nat (S j) b lj x y eq_refl Hj Hx Hy Hxy). discriminate.
  - apply IH.
    + intros i ll Hi. apply (Hnd (S i)). exact Hi.
    + intros i j li lj x y Hi Hj Hx Hy Hxy.
      pose proof (Hapart (S i) (S j) li lj x y Hi Hj Hx Hy Hxy). congruence.
Qed.

Lemma items_value_of self key value :
  0 < len (HashTable.buckets self) -> distinct_keys self -> homed hash self ->
  (key, value) ∈ HashTable.items self <-> value_of hash self key = Some value.
Proof.
  intros Hlen Hd Hh. rewrite items_concat, elem_of_concat.
  destruct (slot_in_range hash self key Hlen) as (ll & Hl & _).
  unfold value_of. rewrite Hl. split.
  - intros (i & l & Hi & Hin).
    pose proof (Hh i l (key, value) Hi Hin) as Hs. cbn [fst] in Hs. subst i.
    rewrite Hl in Hi. inversion Hi; subst l.
    rewrite (find_present key value ll (Forall_lookup_1 _ _ _ _ Hd Hl) Hin).
    reflexivity.
  - destruct (LinkedList.find (HashTable.has_key key) ll) as [item|] eqn:Ef;
      [|discriminate].
    intros E. cbn in E. inversion E; subst value.
    apply find_Some_elem in Ef as [Hin Hk].
    exists (slot hash self key), ll. split; [assumption|].
    destruct item as [k v]. cbn in Hk. subst k. exact Hin.
Qed.

(** X17. After any sequence of [set] and [delete] calls on a new table with
    buckets, [items()] lists exactly the pairs that [get] returns: [(key,
    value)] is listed if and only if [get(key)] returns [value], which is the
    case if and only if [value] is what the latest [set(key, _)] gave with no
    [delete(key)] after it. *)
Theorem items_are_what_get_returns (init_size : Z) (ops : list HashTable.op) key value :
  0 < init_size ->
  let self := HashTable.after hash ops (HashTable.__init__ init_size) in
  ((key, value) ∈ HashTable.items self <-> (HashTable.get hash key self).2 = Ok value) /\
  ((key, value) ∈ HashTable.items self <-> HashTable.latest key ops = Some value).
Proof.
  intros Hsize self.
  destruct (init_invariants init_size ops Hsize) as (Hlen & Hd & Hh). fold self in Hlen, Hd, Hh.
  rewrite (items_value_of self key value Hlen Hd Hh).
  assert (Hv : value_of hash self key = HashTable.latest key ops).
  { assert (Hlen0 : 0 < len (HashTable.buckets (@HashTable.__init__ K V init_size)))
      by (rewrite init_buckets; lia).
    destruct (value_of_after hash ops key _ Hlen0 (init_distinct_keys init_size)) as [_ E].
    unfold self. rewrite E, init_value_of. reflexivity. }
  split; [|rewrite Hv; reflexivity].
  rewrite get_value_of by assumption. cbn [snd].
  destruct (value_of hash self key); split; congruence.
Qed.

(** X18. After any sequence of [set] and [delete] calls on a new table with
    buckets, [keys()] lists no key twice, it lists [key] if and only if
    [contains(key)] answers [True], and [length()] and [table_size] are the
    number of keys listed. *)
Theorem keys_are_distinct (init_size : Z) (ops : list HashTable.op) key :
  0 < init_size ->
  let self := HashTable.after hash ops (@HashTable.__init__ K V init_size) in
  NoDup (HashTable.keys self) /\
  (key ∈ HashTable.keys self <-> HashTable.contains hash key self = true) /\
  HashTable.length self = len (HashTable.keys self) /\
  HashTable.table_size self = len (HashTable.keys self).
Proof.
  intros Hsize self.
  destruct (init_invariants init_size ops Hsize) as (Hlen & Hd & Hh). fold self in Hlen, Hd, Hh.
  split; [|split; [|split]].
  - rewrite keys_concat. apply NoDup_concat_keys.
    + intros i ll Hi. exact (Forall_lookup_1 _ _ _ _ Hd Hi).
    + intros i j li lj x y Hi Hj Hx Hy Hxy.
      rewrite <- (Hh i li x Hi Hx), <- (Hh j lj y Hj Hy), Hxy. reflexivity.
  - destruct (keys_items_length self) as (Ek & _). rewrite Ek.
    rewrite contains_value_of by assumption. rewrite elem_of_map. split.
    + intros ([k v] & Hk & Hin). cbn in Hk. subst k.
      apply (items_value_of self key v Hlen Hd Hh) in Hin. rewrite Hin. reflexivity.
    + destruct (value_of hash self key) as [v|] eqn:Ev; [|discriminate].
      intros _. exists (key, v). split; [reflexivity|].
      apply (items_value_of self key v Hlen Hd Hh). exact Ev.
  - destruct (keys_items_length self) as (Ek & El).
    rewrite El, Ek. unfold len. rewrite length_map. reflexivity.
  - destruct (keys_items_length self) as (Ek & El).
    pose proof (after_keeps_size hash ops _ (init_length init_size)) as Hts.
    fold self in Hts. rewrite Hts, El, Ek. unfold len. rewrite length_map. reflexivity.
Qed.
End HashTableMore.

(** *** The further properties on concrete calls *)

Lemma roman_table_facts :
  let self := HashTable.after str_hash roman (HashTable.__init__ 8) in
  HashTable.buckets self <> [] /\ distinct_keys self.
Proof.
  assert (Hsize : 0 < 8) by lia.
  destruct (init_invariants str_hash 8 roman Hsize) as (Hlen & Hd & _).
  split; [|exact Hd].
  intros E. rewrite E in Hlen. unfold len in Hlen. simpl in Hlen. lia.
Qed.

Lemma get_after_set_witness :
  let self := HashTable.after str_hash roman (HashTable.__init__ 8) in
  (HashTable.get str_hash "L"%string
     (HashTable.set str_hash "L"%string 50 self).1).2 = Ok 50.
Proof.
  intros self.
  exact (get_after_set str_hash self "L"%string 50 "L"%string (proj1 roman_table_facts)).
Defined.

Lemma get_after_delete_witness :
  let self := HashTable.after str_hash roman (HashTable.__init__ 8) in
  (HashTable.get str_hash "X"%string
     (HashTable.delete str_hash "X"%string self).1).2 = Raise KeyError.
Proof.
  intros self.
  exact (get_after_delete str_hash self "X"%string "X"%string
           (proj1 roman_table_facts) (proj2 roman_table_facts)).
Defined.

Lemma set_overwrites_witness :
  let self := HashTable.after str_hash roman (HashTable.__init__ 8) in
  HashTable.set str_hash "V"%string 6 (HashTable.set str_hash "V"%string 4 self).1
  = HashTable.set str_hash "V"%string 6 self.
Proof.
  intros self.
  exact (set_overwrites str_hash self "V"%string 4 6 (proj1 roman_table_facts)).
Defined.

Lemma set_then_delete_restores_witness :
  let self := HashTable.after str_hash roman (HashTable.__init__ 8) in
  HashTable.delete str_hash "L"%string (HashTable.set str_hash "L"%string 50 self).1
  = (self, Ok tt).
Proof.
  intros self.
  apply (set_then_delete_restores str_hash self "L"%string 50 (proj1 roman_table_facts)).
  reflexivity.
Defined.

Lemma no_buckets_every_call_raises_witness :
  HashTable.set str_hash "I"%string 1 (HashTable.__init__ 0)
  = (HashTable.__init__ 0, Raise ZeroDivisionError).
Proof.
  assert (Hsize : 0 <= 0) by lia.
  exact (proj1 (proj2 (no_buckets_every_call_raises str_hash 0 "I"%string 1 Hsize))).
Defined.

Lemma items_are_what_get_returns_witness :
  ("V"%string, 7) ∈ HashTable.items (HashTable.after str_hash roman (HashTable.__init__ 8)).
Proof.
  assert (Hsize : 0 < 8) by lia.
  apply (proj2 (items_are_what_get_returns str_hash 8 roman "V"%string 7 Hsize)).
  reflexivity.
Defined.

Lemma keys_are_distinct_witness :
  NoDup (HashTable.keys (HashTable.after str_hash roman (@HashTable.__init__ string Z 8))).
Proof.
  assert (Hsize : 0 < 8) by lia.
  exact (proj1 (keys_are_distinct str_hash 8 roman "V"%string Hsize)).
Defined.
